(** * fuzzy_load: name matching and identity resolution

    A shallow embedding of [src/fuzzy_load.py]: the two resolver entry
    points ([get_best_score], [extract_best]), the disambiguator
    ([select_best_full_name]), the tabular part of [main] (the fuzzy
    match, the left join, the blank filling, the scoring and the final
    column clean-up) and the upload that ends [main].

    The similarity metric [fuzz.token_set_ratio] belongs to the external
    package [thefuzz]: the similarity of two different strings is a
    variable of the development, a rational number; what the library does
    around it is written out (an empty processed string scores 0, a
    string against itself 100, the scores lie between 0 and 100, the
    cut-off is compared with the unrounded score and the score is rounded
    afterwards).  The selection made by [process.extractOne] and the
    data-frame operations of [pandas] that [main] calls are written out as
    functions. *)

From Stdlib Require Import ZArith QArith Qround Lqa List String Ascii Bool Lia PeanoNat
  DecimalString.
Import ListNotations.

Local Open Scope string_scope.
Local Open Scope list_scope.
Local Open Scope Z_scope.

(** ** Exceptions and results *)

(** The Python exceptions the modelled code can raise. *)
Inductive exn : Type :=
| TypeError
| IndexError
| KeyError
| AttributeError
| ValueError.

(** A computation either returns a value or raises. *)
Inductive result (A : Type) : Type :=
| Ok (a : A)
| Raise (e : exn).

Arguments Ok {A} a.
Arguments Raise {A} e.

Definition bind {A B : Type} (m : result A) (k : A -> result B) : result B :=
  match m with
  | Ok a => k a
  | Raise e => Raise e
  end.

Notation "x <- m ;; k" := (bind m (fun x => k))
  (at level 61, m at next level, right associativity).

(** [[f(x) for x in l]], stopping at the first exception. *)
Fixpoint mapM {A B : Type} (f : A -> result B) (l : list A) : result (list B) :=
  match l with
  | [] => Ok []
  | x :: l' => y <- f x ;; ys <- mapM f l' ;; Ok (y :: ys)
  end.

(** Case analysis on the first step of a computation that returned. *)
Ltac bind_ok H x E :=
  match type of H with
  | bind ?m _ = Ok _ =>
      destruct m as [x|] eqn:E; [cbn [bind] in H | discriminate H]
  end.

(** ** Strings *)

(** [s.split(sep)] for a one-character separator: the string is cut at
    every occurrence of [sep]; the result is never empty. *)
Fixpoint split (sep : ascii) (s : string) : list string :=
  match s with
  | EmptyString => [EmptyString]
  | String c s' =>
      if Ascii.eqb c sep then EmptyString :: split sep s'
      else match split sep s' with
           | [] => [String c EmptyString]
           | tok :: toks => String c tok :: toks
           end
  end.

(** [sep.join(l)]. *)
Fixpoint join (sep : ascii) (l : list string) : string :=
  match l with
  | [] => EmptyString
  | [tok] => tok
  | tok :: l' => (tok ++ String sep (join sep l'))%string
  end.

(** [l[i]] on a list of tokens. *)
Definition item (l : list string) (i : nat) : result string :=
  match nth_error l i with
  | Some tok => Ok tok
  | None => Raise IndexError
  end.

Definition upper_ascii (c : ascii) : ascii :=
  let n := nat_of_ascii c in
  if (97 <=? n)%nat && (n <=? 122)%nat then ascii_of_nat (n - 32) else c.

(** [str.upper] on ASCII text. *)
Fixpoint upper (s : string) : string :=
  match s with
  | EmptyString => EmptyString
  | String c s' => String (upper_ascii c) (upper s')
  end.

Definition mem (c : string) (l : list string) : bool :=
  existsb (String.eqb c) l.

(** ** Cells *)

(** A cell of a data frame: missing ([None] / [NaN]), text or integer. *)
Inductive value : Type :=
| NaN
| Str (s : string)
| Int (z : Z).

Definition value_eqb (a b : value) : bool :=
  match a, b with
  | NaN, NaN => true
  | Str s, Str t => String.eqb s t
  | Int x, Int y => Z.eqb x y
  | _, _ => false
  end.

(** [a > b] between cells: integers and strings compare among themselves,
    a missing number compares false, text against a number raises. *)
Definition gt (a b : value) : result bool :=
  match a, b with
  | Int x, Int y => Ok (y <? x)
  | Str s, Str t => Ok (String.ltb t s)
  | NaN, Int _ | Int _, NaN | NaN, NaN => Ok false
  | _, _ => Raise TypeError
  end.

(** [name.split(' ')] on a cell. *)
Definition split_cell (v : value) : result (list string) :=
  match v with
  | Str s => Ok (split " " s)
  | _ => Raise AttributeError
  end.

(** A name as the library reads it: text.  Any other cell is rejected
    with [TypeError]. *)
Definition as_str (v : value) : result string :=
  match v with
  | Str s => Ok s
  | _ => Raise TypeError
  end.

(** A row seen as a [pd.Series]: labelled cells, looked up by label. *)
Definition Series : Type := list (string * value).

Fixpoint lookup (row : Series) (label : string) : result value :=
  match row with
  | [] => Raise KeyError
  | (l, v) :: row' => if String.eqb l label then Ok v else lookup row' label
  end.

(** ** Data frames *)

Definition row : Type := list value.

(** A [pd.DataFrame]: the column labels and the rows, each row holding one
    cell per column. *)
Record DataFrame : Type := mkFrame {
  columns : list string;
  data : list row
}.

Fixpoint index_of (c : string) (cols : list string) : option nat :=
  match cols with
  | [] => None
  | c' :: cols' =>
      if String.eqb c' c then Some 0%nat else option_map S (index_of c cols')
  end.

(** [df[c]]: the cells of column [c], [KeyError] when there is no such
    column. *)
Definition getitem (df : DataFrame) (c : string) : result (list value) :=
  match index_of c (columns df) with
  | Some i => Ok (map (fun r => nth i r NaN) (data df))
  | None => Raise KeyError
  end.

Definition set_label (c : string) (cols : list string) : list string :=
  if mem c cols then cols else cols ++ [c].

Definition set_cell (cols : list string) (c : string) (r : row) (v : value) : row :=
  match index_of c cols with
  | Some i => firstn i r ++ v :: skipn (S i) r
  | None => r ++ [v]
  end.

(** [df[c] = vals]: an existing column is overwritten in place, a new one
    is appended; the lengths must agree. *)
Definition setitem (df : DataFrame) (c : string) (vals : list value) : result DataFrame :=
  if (List.length vals =? List.length (data df))%nat then
    Ok {| columns := set_label c (columns df);
          data := map (fun rv => set_cell (columns df) c (fst rv) (snd rv))
                      (combine (data df) vals) |}
  else Raise ValueError.

Definition drop_labels (cs : list string) (cols : list string) : list string :=
  filter (fun c => negb (mem c cs)) cols.

Definition drop_cells (cols : list string) (cs : list string) (r : row) : row :=
  map snd (filter (fun lv => negb (mem (fst lv) cs)) (combine cols r)).

(** [df.drop(columns=cs)]: [KeyError] when a label is not a column. *)
Definition drop (df : DataFrame) (cs : list string) : result DataFrame :=
  if forallb (fun c => mem c (columns df)) cs then
    Ok {| columns := drop_labels cs (columns df);
          data := map (drop_cells (columns df) cs) (data df) |}
  else Raise KeyError.

Definition fill (v : value) (x : value) : value :=
  match x with
  | NaN => v
  | _ => x
  end.

(** [df.fillna(v)]. *)
Definition fillna (v : value) (df : DataFrame) : DataFrame :=
  {| columns := columns df; data := map (map (fill v)) (data df) |}.

(** The labels of one side of a merge: a label that the other side has
    too receives the suffix. *)
Definition suffixed (other : list string) (suffix : string) (cols : list string)
    : list string :=
  map (fun c => if mem c other then (c ++ suffix)%string else c) cols.

(** The rows of the right frame whose key equals [key], in their order. *)
Definition matches (key : value) (right_i : nat) (right_rows : list row) : list row :=
  filter (fun r => value_eqb key (nth right_i r NaN)) right_rows.

(** The rows a left row [l] becomes in a left join: one per matching right
    row, or one padded with missing cells when nothing matches. *)
Definition join_row (width : nat) (ms : list row) (l : row) : list row :=
  match ms with
  | [] => [l ++ repeat NaN width]
  | _ :: _ => map (fun r => l ++ r) ms
  end.

(** [pd.merge(left_df, right_df, left_on=, right_on=, how='left',
    suffixes=)] on two differently named key columns. *)
Definition merge (left_df right_df : DataFrame) (left_on right_on : string)
    (suffixes : string * string) : result DataFrame :=
  match index_of left_on (columns left_df), index_of right_on (columns right_df) with
  | Some li, Some ri =>
      Ok {| columns := suffixed (columns right_df) (fst suffixes) (columns left_df)
                       ++ suffixed (columns left_df) (snd suffixes) (columns right_df);
            data := flat_map
                      (fun l => join_row (List.length (columns right_df))
                                         (matches (nth li l NaN) ri (data right_df)) l)
                      (data left_df) |}
  | _, _ => Raise KeyError
  end.

(** [df.columns = [str.upper(c) for c in df.columns]]. *)
Definition upper_columns (df : DataFrame) : DataFrame :=
  {| columns := map upper (columns df); data := data df |}.

(** The reference name lists, keyed as in [names.FILES]. *)
Definition NameLists : Type := list (string * list string).

Fixpoint names_of (reference_names : NameLists) (key : string) : result (list string) :=
  match reference_names with
  | [] => Raise KeyError
  | (k, l) :: rest => if String.eqb k key then Ok l else names_of rest key
  end.

(** ** The warehouse and the console *)

(** What the calls of the upload part can raise: the connector's
    [ProgrammingError], the [AttributeError] of calling a method on
    [None], any other [Exception], an exception outside [Exception] (such
    as [KeyboardInterrupt]), and the exceptions of the tabular part. *)
Inductive raised : Type :=
| ProgrammingError (msg : string)
| NoneAttribute (attr : string)
| OtherException (msg : string)
| Interrupt (msg : string)
| Tabular (e : exn).

(** [except Exception] catches everything but [Interrupt]. *)
Definition is_Exception (r : raised) : bool :=
  match r with
  | Interrupt _ => false
  | _ => true
  end.

Definition exn_name (e : exn) : string :=
  match e with
  | TypeError => "TypeError"
  | IndexError => "IndexError"
  | KeyError => "KeyError"
  | AttributeError => "AttributeError"
  | ValueError => "ValueError"
  end.

(** [str(e)]. *)
Definition message (r : raised) : string :=
  match r with
  | ProgrammingError msg => msg
  | NoneAttribute attr =>
      ("'NoneType' object has no attribute '" ++ attr ++ "'")%string
  | OtherException msg => msg
  | Interrupt msg => msg
  | Tabular e => exn_name e
  end.

Inductive outcome (A : Type) : Type :=
| Returns (a : A)
| Raises (r : raised).

Arguments Returns {A} a.
Arguments Raises {A} r.

(** Connections and cursors are handles. *)
Definition Connection : Type := nat.
Definition Cursor : Type := nat.

(** The keyword arguments of [connect], each as [os.getenv] gave it. *)
Record Credentials : Type := {
  user : option string;
  password : option string;
  account : option string;
  warehouse : option string;
  database : option string;
  schema : option string
}.

(** What the run does to the outside, in order. *)
Inductive event : Type :=
| Connect (creds : Credentials)
| OpenCursor (conn : Connection)
| Execute (cur : Cursor) (query : string)
| ExitCursor (cur : Cursor)
| WritePandas (conn : option Connection) (df : DataFrame) (table_name : string)
| Close (conn : Connection)
| Print (line : string).

Definition is_print (e : event) : bool :=
  match e with
  | Print _ => true
  | _ => false
  end.

(** The outside: the environment variables once [load_dotenv] has run,
    and what each call answers given everything done so far. *)
Record Environment : Type := {
  getenv : string -> option string;
  connect : list event -> Credentials -> outcome Connection;
  cursor : list event -> Connection -> outcome Cursor;
  execute : list event -> Cursor -> string -> outcome unit;
  cursor_exit : list event -> Cursor -> outcome unit;
  write_pandas : list event -> option Connection -> DataFrame -> string
                 -> outcome (bool * Z * Z);
  close : list event -> Connection -> outcome unit
}.

(** A computation of the upload part: from the events so far to the
    events after it and its outcome. *)
Definition action (A : Type) : Type := list event -> list event * outcome A.

Definition ret {A : Type} (a : A) : action A := fun tr => (tr, Returns a).

Definition raise {A : Type} (r : raised) : action A := fun tr => (tr, Raises r).

Definition andthen {A B : Type} (m : action A) (k : A -> action B) : action B :=
  fun tr =>
    match m tr with
    | (tr', Returns a) => k a tr'
    | (tr', Raises r) => (tr', Raises r)
    end.

Notation "x <~ m ;; k" := (andthen m (fun x => k))
  (at level 61, m at next level, right associativity).

(** [try: m  except ...: h], where [h] tells which exceptions it handles. *)
Definition catch {A : Type} (m : action A) (h : raised -> option (action A))
    : action A :=
  fun tr =>
    match m tr with
    | (tr', Returns a) => (tr', Returns a)
    | (tr', Raises r) =>
        match h r with
        | Some handler => handler tr'
        | None => (tr', Raises r)
        end
    end.

(** One call into the outside: the event is recorded and the outside
    answers. *)
Definition call {A : Type} (e : event) (answer : list event -> outcome A) : action A :=
  fun tr => (tr ++ [e], answer tr).

(** [print(line)]. *)
Definition print (line : string) : action unit :=
  fun tr => (tr ++ [Print line], Returns tt).

(** [if verbose: print(line)]. *)
Definition say (verbose : bool) (line : string) : action unit :=
  if verbose then print line else ret tt.

(** Case analysis on the answers of the outside met in a hypothesis or in
    the goal. *)
Ltac answer_in H :=
  match type of H with
  | context [match ?x with Returns _ => _ | Raises _ => _ end] =>
      let E := fresh "E" in destruct x eqn:E; simpl in H
  | context [if ?b then _ else _] =>
      let E := fresh "E" in destruct b eqn:E; simpl in H
  end.

Ltac answer :=
  match goal with
  | |- context [match ?x with Returns _ => _ | Raises _ => _ end] =>
      let E := fresh "E" in destruct x eqn:E; simpl
  | |- context [if ?b then _ else _] =>
      let E := fresh "E" in destruct b eqn:E; simpl
  end.

(** An action that prints nothing. *)
Definition silent {A : Type} (m : action A) : Prop :=
  forall tr, filter is_print (fst (m tr)) = filter is_print tr.

(** An action that only adds events after those already there. *)
Definition extends {A : Type} (m : action A) : Prop :=
  forall tr, exists evs, fst (m tr) = tr ++ evs.

(** [str(n)] for an integer. *)
Definition str_of_Z (n : Z) : string := NilZero.string_of_int (Z.to_int n).

Definition newline : string := String (ascii_of_nat 10) EmptyString.

(** ** The scores of the library *)

(** ASCII letters and digits. *)
Definition is_alnum (c : ascii) : bool :=
  let n := nat_of_ascii c in
  ((48 <=? n) && (n <=? 57) || (65 <=? n) && (n <=? 90)
   || (97 <=? n) && (n <=? 122))%nat.

(** An ASCII character that is no letter, no digit and no underscore: the
    processing of the library ([utils.full_process]) replaces it by white
    space. *)
Definition is_filler (c : ascii) : bool :=
  let n := nat_of_ascii c in
  (n <? 128)%nat && negb (is_alnum c) && negb (n =? 95)%nat.

(** The processing leaves nothing of [s]: every character is replaced by
    white space, which is stripped. *)
Fixpoint processed_empty (s : string) : bool :=
  match s with
  | EmptyString => true
  | String c s' => is_filler c && processed_empty s'
  end.

Fixpoint is_ascii (s : string) : bool :=
  match s with
  | EmptyString => true
  | String c s' => (nat_of_ascii c <? 128)%nat && is_ascii s'
  end.

Fixpoint has_alnum (s : string) : bool :=
  match s with
  | EmptyString => false
  | String c s' => is_alnum c || has_alnum s'
  end.

(** ASCII text with a letter or a digit: the processing leaves a token of
    it. *)
Definition has_token (s : string) : bool := is_ascii s && has_alnum s.

(** [int(round(x))]: the nearest integer, the even one when [x] lies
    halfway between two. *)
Definition int_round (x : Q) : Z :=
  let y := (x + (1 # 2))%Q in
  let n := Qfloor y in
  if Qeq_bool y (inject_Z n) && Z.odd n then n - 1 else n.

(** The scores of the library lie between 0 and 100. *)
Definition clamp (x : Q) : Q :=
  if Qle_bool x 0 then 0%Q else if Qle_bool 100 x then 100%Q else x.

(** ** Similarities for the examples *)

(** No similarity between different strings: the value on strings with no
    character in common. *)
Definition no_similarity (a b : string) : Q := 0%Q.

(** The length of a longest common subsequence. *)
Fixpoint lcs (a : string) : string -> nat :=
  match a with
  | EmptyString => fun _ => 0%nat
  | String x a' =>
      fix lcs_a (b : string) : nat :=
        match b with
        | EmptyString => 0%nat
        | String y b' =>
            if Ascii.eqb x y then S (lcs a' b')
            else Nat.max (lcs a' b) (lcs_a b')
        end
  end.

(** The similarity of two different one-word strings: twice the length of
    a longest common subsequence over the sum of the lengths, in percent. *)
Definition indel_similarity (a b : string) : Q :=
  Qmake (200 * Z.of_nat (lcs a b)) (Pos.of_nat (String.length a + String.length b)).

(** ** Sample tables *)

(** The labels of the two input tables. *)
Definition transaction_columns : list string :=
  [ "transaction_id"; "amount"; "transaction_date"; "customer_id"; "email";
    "customer_name" ].

Definition customer_columns : list string :=
  [ "customer_id"; "email"; "customer_name" ].

(** Input tables whose only common label is [customer_name]. *)
Definition plain_transaction_columns : list string :=
  [ "transaction_id"; "amount"; "transaction_date"; "customer_name" ].

Definition sample_names : NameLists :=
  [ ("first:male", ["John"]); ("first:female", ["Mary"]); ("last", ["Smith"]) ].

Definition sample_transactions : DataFrame :=
  {| columns := transaction_columns;
     data := [ [Int 1; Int 250; Str "2024-01-05"; Int 7; Str "js@x.org"; Str "John Smith"] ] |}.

Definition sample_customers : DataFrame :=
  {| columns := customer_columns;
     data := [ [Int 7; Str "js@x.org"; Str "John Smith"] ] |}.

(** Two customer rows carrying the same canonical name. *)
Definition twin_customers : DataFrame :=
  {| columns := customer_columns;
     data := [ [Int 7; Str "js@x.org"; Str "John Smith"];
               [Int 8; Str "john@y.org"; Str "John Smith"] ] |}.

(** A transaction whose name is no customer's. *)
Definition stray_transactions : DataFrame :=
  {| columns := transaction_columns;
     data := [ [Int 2; Int 90; Str "2024-02-11"; Int 9; Str "zq@z.org"; Str "Zyx Qwerty"] ] |}.

Definition plain_transactions : DataFrame :=
  {| columns := plain_transaction_columns;
     data := [ [Int 1; Int 250; Str "2024-01-05"; Str "John Smith"] ] |}.

(** The frames the sample tables lead to. *)
Definition suffixed_output_columns : list string :=
  [ "TRANSACTION_ID"; "AMOUNT"; "TRANSACTION_DATE"; "CUSTOMER_ID_1"; "EMAIL_1";
    "CUSTOMER_ID_2"; "EMAIL_2"; "CUSTOMER_NAME" ].

Definition plain_output_columns : list string :=
  [ "TRANSACTION_ID"; "AMOUNT"; "TRANSACTION_DATE"; "CUSTOMER_ID"; "EMAIL";
    "CUSTOMER_NAME" ].

Definition sample_output : DataFrame :=
  {| columns := suffixed_output_columns;
     data := [ [Int 1; Int 250; Str "2024-01-05"; Int 7; Str "js@x.org"; Int 7;
                Str "js@x.org"; Str "John Smith"] ] |}.

Definition twin_output : DataFrame :=
  {| columns := suffixed_output_columns;
     data := [ [Int 1; Int 250; Str "2024-01-05"; Int 7; Str "js@x.org"; Int 7;
                Str "js@x.org"; Str "John Smith"];
               [Int 1; Int 250; Str "2024-01-05"; Int 7; Str "js@x.org"; Int 8;
                Str "john@y.org"; Str "John Smith"] ] |}.

Definition plain_output : DataFrame :=
  {| columns := plain_output_columns;
     data := [ [Int 1; Int 250; Str "2024-01-05"; Int 7; Str "js@x.org";
                Str "John Smith"] ] |}.

Definition stray_merged : DataFrame :=
  {| columns := [ "transaction_id"; "amount"; "transaction_date"; "customer_id_1";
                  "email_1"; "customer_name_1"; "external_name"; "customer_id_2";
                  "email_2"; "customer_name_2" ];
     data := [ [Int 2; Int 90; Str "2024-02-11"; Int 9; Str "zq@z.org";
                Str "Zyx Qwerty"; NaN; NaN; NaN; NaN] ] |}.

Definition stray_output : DataFrame :=
  {| columns := suffixed_output_columns;
     data := [ [Int 2; Int 90; Str "2024-02-11"; Int 9; Str "zq@z.org"; Str " ";
                Str " "; Str "Zyx Qwerty"] ] |}.

(** Two outsides: one where every call succeeds, one where the
    connection is refused. *)
Definition sample_env : Environment :=
  {| getenv := fun _ => Some "value";
     connect := fun _ _ => Returns 1%nat;
     cursor := fun _ _ => Returns 2%nat;
     execute := fun _ _ _ => Returns tt;
     cursor_exit := fun _ _ => Returns tt;
     write_pandas := fun _ _ df _ => Returns (true, 1, Z.of_nat (List.length (data df)));
     close := fun _ _ => Returns tt |}.

Definition refusing_env : Environment :=
  {| getenv := fun _ => None;
     connect := fun _ _ => Raises (ProgrammingError "250001: failed to connect");
     cursor := fun _ _ => Returns 2%nat;
     execute := fun _ _ _ => Returns tt;
     cursor_exit := fun _ _ => Returns tt;
     write_pandas := fun _ conn df _ =>
       match conn with
       | Some _ => Returns (true, 1, Z.of_nat (List.length (data df)))
       | None => Raises (NoneAttribute "cursor")
       end;
     close := fun _ _ => Returns tt |}.

(** An outside where the table cannot be created and the upload reports
    a failure. *)
Definition failing_env : Environment :=
  {| getenv := fun _ => Some "value";
     connect := fun _ _ => Returns 1%nat;
     cursor := fun _ _ => Returns 2%nat;
     execute := fun _ _ _ => Raises (ProgrammingError "002003: insufficient privileges");
     cursor_exit := fun _ _ => Returns tt;
     write_pandas := fun _ _ _ _ => Returns (false, 0, 0);
     close := fun _ _ => Returns tt |}.

(** An outside where the upload raises. *)
Definition broken_upload_env : Environment :=
  {| getenv := fun _ => Some "value";
     connect := fun _ _ => Returns 1%nat;
     cursor := fun _ _ => Returns 2%nat;
     execute := fun _ _ _ => Returns tt;
     cursor_exit := fun _ _ => Returns tt;
     write_pandas := fun _ _ _ _ => Raises (OtherException "upload failed");
     close := fun _ _ => Returns tt |}.

Section Resolver.

(** The score [rapidfuzz.fuzz.token_set_ratio] gives to a query and a
    choice, processing included, where the cases written out in
    [unrounded_ratio] do not decide it. *)
Variable similarity : string -> string -> Q.

(** The unrounded score [process.extractOne] works with: 0 when the
    processing leaves nothing of the query or of the choice, 100 for a
    string with a token against itself, the similarity otherwise. *)
Definition unrounded_ratio (query choice : string) : Q :=
  if processed_empty query || processed_empty choice then 0%Q
  else if has_token query && String.eqb query choice then 100%Q
  else clamp (similarity query choice).

(** [fuzz.token_set_ratio]: the score as the caller sees it, rounded. *)
Definition token_set_ratio (query choice : string) : Z :=
  int_round (unrounded_ratio query choice).

(** ** process.extractOne *)

(** The choices whose unrounded score reaches the cut-off, in the order of
    [choices], each with its score. *)
Definition extractWithoutOrder (query : string) (choices : list string)
    (score_cutoff : Z) : list (string * Q) :=
  filter (fun cs => Qle_bool (inject_Z score_cutoff) (snd cs))
         (map (fun c => (c, unrounded_ratio query c)) choices).

(** The best of [best :: l]: a later element replaces the current one
    only when its unrounded score is strictly higher. *)
Fixpoint max_by_score (best : string * Q) (l : list (string * Q)) : string * Q :=
  match l with
  | [] => best
  | x :: l' => max_by_score (if Qle_bool (snd x) (snd best) then best else x) l'
  end.

(** [process.extractOne(query, choices, scorer=fuzz.token_set_ratio,
    score_cutoff=...)]: a cut-off outside 0..100 raises [TypeError];
    otherwise the best choice whose unrounded score reaches the cut-off,
    with its score rounded, [None] when there is none. *)
Definition extractOne (query : string) (choices : list string)
    (score_cutoff : Z) : result (option (string * Z)) :=
  if (score_cutoff <? 0) || (100 <? score_cutoff) then Raise TypeError
  else
    Ok (match extractWithoutOrder query choices score_cutoff with
        | [] => None
        | x :: l => let best := max_by_score x l in
                    Some (fst best, int_round (snd best))
        end).

(** ** The resolver entry points *)

(** [best, score = process.extractOne(name, choices, ...)]: unpacking
    [None] raises [TypeError]. *)
Definition get_best_score (name : string) (choices : list string) : result Z :=
  match extractOne name choices 0 with
  | Ok (Some (_, score)) => Ok score
  | Ok None => Raise TypeError
  | Raise e => Raise e
  end.

Definition extract_best (name : string) (choices : list string)
    (threshold : Z) : result (option string) :=
  match extractOne name choices threshold with
  | Ok (Some r) => Ok (Some (fst r))
  | Ok None => Ok None
  | Raise e => Raise e
  end.

(** A candidate of [choices] that no other candidate outscores, on the
    scores as the caller sees them. *)
Definition is_best (query : string) (choices : list string) (c : string) : Prop :=
  In c choices /\
  forall c', In c' choices -> token_set_ratio query c' <= token_set_ratio query c.

(** The same on the unrounded scores. *)
Definition is_highest (query : string) (choices : list string) (c : string) : Prop :=
  In c choices /\
  forall c', In c' choices ->
             (unrounded_ratio query c' <= unrounded_ratio query c)%Q.

(** ** The disambiguator *)

Definition select_best_full_name (row : Series) : result string :=
  score_1 <- lookup row "score_1" ;;
  score_2 <- lookup row "score_2" ;;
  first_1 <- gt score_1 score_2 ;;
  best_first <-
    (if first_1 then
       n <- lookup row "customer_name_1" ;; t <- split_cell n ;; item t 0
     else
       score_2 <- lookup row "score_2" ;;
       score_1 <- lookup row "score_1" ;;
       first_2 <- gt score_2 score_1 ;;
       if first_2 then
         n <- lookup row "customer_name_2" ;; t <- split_cell n ;; item t 0
       else
         n <- lookup row "customer_name_1" ;; t <- split_cell n ;; item t 0) ;;
  score_last_1 <- lookup row "score_last_1" ;;
  score_last_2 <- lookup row "score_last_2" ;;
  last_1 <- gt score_last_1 score_last_2 ;;
  best_last <-
    (if last_1 then
       n <- lookup row "customer_name_1" ;; t <- split_cell n ;; item t 1
     else
       score_last_2 <- lookup row "score_last_2" ;;
       score_last_1 <- lookup row "score_last_1" ;;
       last_2 <- gt score_last_2 score_last_1 ;;
       if last_2 then
         n <- lookup row "customer_name_2" ;; t <- split_cell n ;; item t 1
       else
         n <- lookup row "customer_name_1" ;; t <- split_cell n ;; item t 1) ;;
  Ok (best_first ++ " " ++ best_last)%string.

(** The row of the docstring: the two names and their four scores. *)
Definition scored_row (name_1 name_2 : string)
    (score_1 score_2 score_last_1 score_last_2 : Z) : Series :=
  [ ("customer_name_1", Str name_1); ("customer_name_2", Str name_2);
    ("score_1", Int score_1); ("score_2", Int score_2);
    ("score_last_1", Int score_last_1); ("score_last_2", Int score_last_2) ].

(** [row] carries the two names and the four scores under their labels. *)
Definition names_scores (row : Series) (name_1 name_2 : string)
    (score_1 score_2 score_last_1 score_last_2 : Z) : Prop :=
  lookup row "customer_name_1" = Ok (Str name_1)
  /\ lookup row "customer_name_2" = Ok (Str name_2)
  /\ lookup row "score_1" = Ok (Int score_1)
  /\ lookup row "score_2" = Ok (Int score_2)
  /\ lookup row "score_last_1" = Ok (Int score_last_1)
  /\ lookup row "score_last_2" = Ok (Int score_last_2).

(** ** main: from the loaded tables to the uploaded frame *)

(** [lambda name: extract_best(name, customers_names)] on a cell of the
    transaction names: the best customer name, or nothing when no
    candidate clears the default threshold of 75.  Names are text: a
    cell that is not text, in the transaction or among the customer
    names, is rejected.  (The library itself passes over a missing
    customer name; the results on the join are about customer tables
    whose names are all text.) *)
Definition resolve_cell (customers_names : list value) (name : value) : result value :=
  n <- as_str name ;;
  choices <- mapM as_str customers_names ;;
  best <- extract_best n choices 75 ;;
  Ok (match best with
      | Some c => Str c
      | None => NaN
      end).

(** [reference_names['first:female']['name'].to_list() +
    reference_names['first:male']['name'].to_list()]. *)
Definition first_names (reference_names : NameLists) : result (list string) :=
  female <- names_of reference_names "first:female" ;;
  male <- names_of reference_names "first:male" ;;
  Ok (female ++ male).

(** [reference_names['last']['name'].to_list()]. *)
Definition last_names (reference_names : NameLists) : result (list string) :=
  names_of reference_names "last".

(** [lambda name: get_best_score(name.split(' ')[i], pool)]. *)
Definition score_token (i : nat) (pool : result (list string)) (name : value)
    : result value :=
  t <- split_cell name ;;
  tok <- item t i ;;
  choices <- pool ;;
  score <- get_best_score tok choices ;;
  Ok (Int score).

(** [df[src].apply(f)]. *)
Definition apply_column (df : DataFrame) (src : string) (f : value -> result value)
    : result (list value) :=
  col <- getitem df src ;;
  mapM f col.

(** [df.apply(f, axis=1)], for the assignment to one column.  On a frame
    without rows [apply] returns a frame, not a column, and the assignment
    raises [ValueError]. *)
Definition apply_rows (df : DataFrame) (f : Series -> result value)
    : result (list value) :=
  match data df with
  | [] => Raise ValueError
  | _ :: _ => mapM (fun r => f (combine (columns df) r)) (data df)
  end.

(** The record linker: the fuzzy match of every transaction name and the
    left join on the matched name. *)
Definition link_records (transactions customers : DataFrame) : result DataFrame :=
  customers_names <- getitem customers "customer_name" ;;
  external_name <-
    apply_column transactions "customer_name" (resolve_cell customers_names) ;;
  transactions <- setitem transactions "external_name" external_name ;;
  merge transactions customers "external_name" "customer_name" ("_1", "_2").

Definition score_columns : list string :=
  [ "customer_name_1"; "customer_name_2"; "score_1"; "score_2";
    "score_last_1"; "score_last_2" ].

(** The rest of the tabular part: blanks for the missing cells, the four
    scores, the selected full name, the clean-up and the upper-case
    labels. *)
Definition resolve_names (reference_names : NameLists) (merged_df : DataFrame)
    : result DataFrame :=
  let merged_df := fillna (Str " ") merged_df in
  merged_df <- drop merged_df ["external_name"] ;;
  score_1 <- apply_column merged_df "customer_name_1"
               (score_token 0 (first_names reference_names)) ;;
  merged_df <- setitem merged_df "score_1" score_1 ;;
  score_2 <- apply_column merged_df "customer_name_2"
               (score_token 0 (first_names reference_names)) ;;
  merged_df <- setitem merged_df "score_2" score_2 ;;
  score_last_1 <- apply_column merged_df "customer_name_1"
                    (score_token 1 (last_names reference_names)) ;;
  merged_df <- setitem merged_df "score_last_1" score_last_1 ;;
  score_last_2 <- apply_column merged_df "customer_name_2"
                    (score_token 1 (last_names reference_names)) ;;
  merged_df <- setitem merged_df "score_last_2" score_last_2 ;;
  customer_name <- apply_rows merged_df
                     (fun row => n <- select_best_full_name row ;; Ok (Str n)) ;;
  merged_df <- setitem merged_df "customer_name" customer_name ;;
  merged_df <- drop merged_df score_columns ;;
  Ok (upper_columns merged_df).

(** The frame [main] hands to the upload. *)
Definition main (transactions customers : DataFrame) (reference_names : NameLists)
    : result DataFrame :=
  merged_df <- link_records transactions customers ;;
  resolve_names reference_names merged_df.

(** ** The same computation, one row at a time *)

Definition cell_at (cols : list string) (c : string) (r : row) : result value :=
  match index_of c cols with
  | Some i => Ok (nth i r NaN)
  | None => Raise KeyError
  end.

(** One scoring line of [main] on one row: read [src], score it, store the
    score under [dst]. *)
Definition score_row (cols : list string) (dst src : string) (i : nat)
    (pool : result (list string)) (r : row) : result row :=
  n <- cell_at cols src r ;;
  v <- score_token i pool n ;;
  Ok (set_cell cols dst r v).

(** The selection line of [main] on one row. *)
Definition select_row (cols : list string) (r : row) : result row :=
  v <- (n <- select_best_full_name (combine cols r) ;; Ok (Str n)) ;;
  Ok (set_cell cols "customer_name" r v).

(** What [resolve_names] does to one row of a merged frame whose labels
    are [cols]. *)
Definition resolve_row (reference_names : NameLists) (cols : list string) (r : row)
    : result row :=
  let firsts := first_names reference_names in
  let lasts := last_names reference_names in
  let r := drop_cells cols ["external_name"] (map (fill (Str " ")) r) in
  let cols := drop_labels ["external_name"] cols in
  r <- score_row cols "score_1" "customer_name_1" 0 firsts r ;;
  let cols := set_label "score_1" cols in
  r <- score_row cols "score_2" "customer_name_2" 0 firsts r ;;
  let cols := set_label "score_2" cols in
  r <- score_row cols "score_last_1" "customer_name_1" 1 lasts r ;;
  let cols := set_label "score_last_1" cols in
  r <- score_row cols "score_last_2" "customer_name_2" 1 lasts r ;;
  let cols := set_label "score_last_2" cols in
  r <- select_row cols r ;;
  let cols := set_label "customer_name" cols in
  Ok (drop_cells cols score_columns r).

(** The labels [resolve_names] leaves, from those of the merged frame. *)
Definition resolve_columns (cols : list string) : list string :=
  map upper
    (drop_labels score_columns
       (set_label "customer_name"
          (set_label "score_last_2"
             (set_label "score_last_1"
                (set_label "score_2"
                   (set_label "score_1"
                      (drop_labels ["external_name"] cols))))))).

(** The labels of the merged frame, from those of the two tables. *)
Definition link_columns (tcols ccols : list string) : list string :=
  suffixed ccols "_1" (set_label "external_name" tcols)
  ++ suffixed (set_label "external_name" tcols) "_2" ccols.

(** The fuzzy match of one transaction: the cell stored under
    [external_name]. *)
Definition external_name_of (tcols : list string) (customers : DataFrame) (t : row)
    : result value :=
  customers_names <- getitem customers "customer_name" ;;
  name <- cell_at tcols "customer_name" t ;;
  resolve_cell customers_names name.

(** The customer rows whose [customer_name] equals [key]. *)
Definition customer_rows (customers : DataFrame) (key : value) : list row :=
  match index_of "customer_name" (columns customers) with
  | Some ri => matches key ri (data customers)
  | None => []
  end.

(** The rows of the merged frame that come from the transaction [t]. *)
Definition link_row (tcols : list string) (customers : DataFrame) (t : row)
    : result (list row) :=
  external_name <- external_name_of tcols customers t ;;
  let t := set_cell tcols "external_name" t external_name in
  key <- cell_at (set_label "external_name" tcols) "external_name" t ;;
  Ok (join_row (List.length (columns customers)) (customer_rows customers key) t).

(** The output rows of the transaction [t]. *)
Definition transaction_rows (tcols : list string) (customers : DataFrame)
    (reference_names : NameLists) (t : row) : result (list row) :=
  joined <- link_row tcols customers t ;;
  mapM (resolve_row reference_names (link_columns tcols (columns customers))) joined.

(** ** Well-formed tables *)

(** A cell that holds a name of at least two tokens. *)
Definition full_name (v : value) : Prop :=
  exists s, v = Str s /\ (2 <= List.length (split " " s))%nat.

(** A transaction row and a customer row as the schema has them, each
    with a full name. *)
Definition full_transaction (t : row) : Prop :=
  exists tid amt date cid email n, t = [tid; amt; date; cid; email; n] /\ full_name n.

Definition full_customer (r : row) : Prop :=
  exists cid email n, r = [cid; email; n] /\ full_name n.

(** ** connect_to_snowflake, create_table and the end of main *)

(** The outside the run talks to. *)
Variable env : Environment.

Definition credentials : Credentials :=
  {| user := getenv env "SNOWFLAKE_USER";
     password := getenv env "SNOWFLAKE_PASSWORD";
     account := getenv env "SNOWFLAKE_ACCOUNT";
     warehouse := getenv env "SNOWFLAKE_WAREHOUSE";
     database := getenv env "SNOWFLAKE_DATABASE";
     schema := getenv env "SNOWFLAKE_SCHEMA" |}.

(** The connection, or [None] when [connect] raised [ProgrammingError];
    any other exception goes through. *)
Definition connect_to_snowflake (verbose : bool) : action (option Connection) :=
  catch
    (conn <~ call (Connect credentials) (fun tr => connect env tr credentials) ;;
     _ <~ say verbose "Connection to Snowflake established successfully." ;;
     ret (Some conn))
    (fun r =>
       match r with
       | ProgrammingError _ =>
           Some (_ <~ say verbose ("Error connecting to Snowflake: " ++ message r) ;;
                 ret None)
       | _ => None
       end).

Definition create_table_query (table_name : string) : string :=
  (newline
   ++ "            CREATE OR REPLACE TABLE " ++ table_name ++ " (" ++ newline
   ++ "                transaction_id INTEGER," ++ newline
   ++ "                amount INTEGER," ++ newline
   ++ "                transaction_date DATE," ++ newline
   ++ "                customer_id INTEGER," ++ newline
   ++ "                email STRING," ++ newline
   ++ "                customer_name STRING" ++ newline
   ++ "            )" ++ newline
   ++ "            ")%string.

(** [with conn.cursor() as cursor: body]: the cursor is left whether the
    body returns or raises; an exception of the exit replaces the one of
    the body. On [None] the attribute lookup raises. *)
Definition with_cursor {A : Type} (conn : option Connection)
    (body : Cursor -> action A) : action A :=
  match conn with
  | None => raise (NoneAttribute "cursor")
  | Some c =>
      cur <~ call (OpenCursor c) (fun tr => cursor env tr c) ;;
      fun tr =>
        match body cur tr with
        | (tr', Returns a) =>
            (_ <~ call (ExitCursor cur) (fun tr => cursor_exit env tr cur) ;; ret a) tr'
        | (tr', Raises r) =>
            (_ <~ call (ExitCursor cur) (fun tr => cursor_exit env tr cur) ;;
             raise r) tr'
        end
  end.

Definition create_table (conn : option Connection) (table_name : string)
    (verbose : bool) : action bool :=
  catch
    (with_cursor conn
       (fun cur =>
          _ <~ call (Execute cur (create_table_query table_name))
                    (fun tr => execute env tr cur (create_table_query table_name)) ;;
          _ <~ say verbose ("Table '" ++ table_name ++ "' created successfully.") ;;
          ret true))
    (fun r =>
       if is_Exception r then
         Some (_ <~ say verbose ("Failed to create table '" ++ table_name ++ "': "
                                 ++ message r) ;;
               ret false)
       else None).

(** The tabular part inside the run. *)
Definition tabular {A : Type} (m : result A) : action A :=
  match m with
  | Ok a => ret a
  | Raise e => raise (Tabular e)
  end.

(** [conn.close()]. *)
Definition close_connection (conn : option Connection) : action unit :=
  match conn with
  | Some c => call (Close c) (fun tr => close env tr c)
  | None => raise (NoneAttribute "close")
  end.

(** [main] on the tables [load_data] returned: the tabular part, the
    connection, the table, the upload and the closing. *)
Definition main_upload (transactions customers : DataFrame)
    (reference_names : NameLists) (table_name : string) (verbose : bool)
    : action unit :=
  let table_name := upper table_name in
  merged_df <~ tabular (main transactions customers reference_names) ;;
  conn <~ connect_to_snowflake verbose ;;
  _ <~ create_table conn table_name verbose ;;
  res <~ call (WritePandas conn merged_df table_name)
              (fun tr => write_pandas env tr conn merged_df table_name) ;;
  let '(success, nchunks, nrows) := res in
  _ <~ (if success then
          say verbose ("Successfully uploaded " ++ str_of_Z nrows ++ " rows to "
                       ++ table_name ++ " in " ++ str_of_Z nchunks ++ " chunks.")
        else say verbose "Failed to upload DataFrame to Snowflake.") ;;
  _ <~ close_connection conn ;;
  say verbose "Connection to Snowflake closed successfully.".

(** ** Results of the selection *)

Lemma int_round_Z (n : Z) : int_round (inject_Z n) = n.
Proof.
  unfold int_round.
  assert (E : Qfloor (inject_Z n + (1 # 2)) = n).
  { unfold Qfloor, Qplus, inject_Z. simpl.
    symmetry. apply (Z.div_unique _ _ _ 1); lia. }
  cbv zeta. rewrite E.
  replace (Qeq_bool (inject_Z n + (1 # 2)) (inject_Z n)) with false; [reflexivity|].
  symmetry. apply not_true_is_false. intros H. apply Qeq_bool_iff in H.
  lra.
Qed.

Lemma int_round_mono (x y : Q) : (x <= y)%Q -> int_round x <= int_round y.
Proof.
  intros Hxy. unfold int_round. cbv zeta.
  set (a := (x + (1 # 2))%Q). set (b := (y + (1 # 2))%Q).
  assert (Hab : (a <= b)%Q) by (unfold a, b; lra).
  pose proof (Qfloor_resp_le _ _ Hab) as Hnm.
  pose proof (Qfloor_le a) as Ha.
  destruct (Qeq_bool b (inject_Z (Qfloor b)) && Z.odd (Qfloor b)) eqn:Eb.
  - apply andb_true_iff in Eb. destruct Eb as [Eb Hodd]. apply Qeq_bool_iff in Eb.
    destruct (Z.eq_dec (Qfloor a) (Qfloor b)) as [E | NE].
    + assert (Ea : (a == inject_Z (Qfloor a))%Q) by (rewrite E in *; lra).
      apply Qeq_bool_iff in Ea. rewrite Ea. rewrite E, Hodd. simpl. lia.
    + destruct (Qeq_bool a (inject_Z (Qfloor a)) && Z.odd (Qfloor a)); lia.
  - destruct (Qeq_bool a (inject_Z (Qfloor a)) && Z.odd (Qfloor a)); lia.
Qed.

(** An unrounded score that reaches an integer rounds to at least it. *)
Lemma int_round_ge (t : Z) (x : Q) : (inject_Z t <= x)%Q -> t <= int_round x.
Proof. intros H. apply int_round_mono in H. now rewrite int_round_Z in H. Qed.

Lemma int_round_le (t : Z) (x : Q) : (x <= inject_Z t)%Q -> int_round x <= t.
Proof. intros H. apply int_round_mono in H. now rewrite int_round_Z in H. Qed.

Lemma clamp_range (x : Q) : (0 <= clamp x <= 100)%Q.
Proof.
  unfold clamp. destruct (Qle_bool x 0) eqn:E0; [lra|].
  destruct (Qle_bool 100 x) eqn:E1; [lra|].
  assert (~ (x <= 0)%Q) by (rewrite <- Qle_bool_iff; congruence).
  assert (~ (100 <= x)%Q) by (rewrite <- Qle_bool_iff; congruence).
  lra.
Qed.

Lemma unrounded_ratio_range (query choice : string) :
  (0 <= unrounded_ratio query choice <= 100)%Q.
Proof.
  unfold unrounded_ratio.
  destruct (processed_empty query || processed_empty choice); [lra|].
  destruct (has_token query && String.eqb query choice); [lra|].
  apply clamp_range.
Qed.

Lemma token_set_ratio_range (query choice : string) :
  0 <= token_set_ratio query choice <= 100.
Proof.
  unfold token_set_ratio. pose proof (unrounded_ratio_range query choice) as [H0 H1].
  split; [now apply (int_round_ge 0) | now apply (int_round_le 100)].
Qed.

Lemma Qle_bool_false (x y : Q) : Qle_bool x y = false <-> (y < x)%Q.
Proof.
  split.
  - intros H. apply Qnot_le_lt. rewrite <- Qle_bool_iff. congruence.
  - intros H. apply not_true_is_false. rewrite Qle_bool_iff. now apply Qlt_not_le.
Qed.

Lemma max_by_score_in (best : string * Q) (l : list (string * Q)) :
  In (max_by_score best l) (best :: l).
Proof.
  revert best; induction l as [|x l IH]; intros best; simpl.
  - now left.
  - destruct (IH (if Qle_bool (snd x) (snd best) then best else x)) as [E | I].
    + rewrite <- E. destruct (Qle_bool (snd x) (snd best)); auto.
    + auto.
Qed.

Lemma max_by_score_ge (best : string * Q) (l : list (string * Q)) :
  forall x, In x (best :: l) -> (snd x <= snd (max_by_score best l))%Q.
Proof.
  revert best; induction l as [|y l IH]; intros best x Hx; simpl.
  - destruct Hx as [<- | []]. lra.
  - assert (Hb : (snd best <= snd (max_by_score
                     (if Qle_bool (snd y) (snd best) then best else y) l))%Q
              /\ (snd y <= snd (max_by_score
                     (if Qle_bool (snd y) (snd best) then best else y) l))%Q).
    { destruct (Qle_bool (snd y) (snd best)) eqn:E.
      - apply Qle_bool_iff in E.
        pose proof (IH best best (or_introl eq_refl)). split; lra.
      - apply Qle_bool_false in E.
        pose proof (IH y y (or_introl eq_refl)). split; lra. }
    destruct Hx as [<- | [<- | Hx]]; try tauto.
    apply IH. now right.
Qed.

Lemma in_extractWithoutOrder (query : string) (choices : list string) (cutoff : Z)
    (x : string * Q) :
  In x (extractWithoutOrder query choices cutoff) <->
  In (fst x) choices /\ snd x = unrounded_ratio query (fst x)
  /\ (inject_Z cutoff <= snd x)%Q.
Proof.
  unfold extractWithoutOrder. rewrite filter_In, in_map_iff, Qle_bool_iff. split.
  - intros [[c [<- Hc]] Hle]. simpl in *. auto.
  - intros [Hc [Hs Hle]]. split; [|assumption].
    exists (fst x). split; [|assumption]. destruct x; simpl in *. now subst.
Qed.

Lemma cutoff_check (cutoff : Z) :
  0 <= cutoff <= 100 -> (cutoff <? 0) || (100 <? cutoff) = false.
Proof. intros H. apply orb_false_iff. split; apply Z.ltb_ge; lia. Qed.

Lemma extractOne_out_of_range (query : string) (choices : list string) (cutoff : Z) :
  cutoff < 0 \/ 100 < cutoff -> extractOne query choices cutoff = Raise TypeError.
Proof.
  intros H. unfold extractOne.
  replace ((cutoff <? 0) || (100 <? cutoff)) with true; [reflexivity|].
  symmetry. apply orb_true_iff. destruct H; [left | right]; now apply Z.ltb_lt.
Qed.

Lemma extractOne_some (query : string) (choices : list string) (cutoff : Z)
    (c : string) :
  0 <= cutoff <= 100 ->
  In c choices -> (inject_Z cutoff <= unrounded_ratio query c)%Q ->
  exists b, extractOne query choices cutoff = Ok (Some (b, token_set_ratio query b))
            /\ is_highest query choices b
            /\ (inject_Z cutoff <= unrounded_ratio query b)%Q.
Proof.
  intros Hr Hc Hle. unfold extractOne. rewrite (cutoff_check _ Hr).
  assert (Hin : In (c, unrounded_ratio query c) (extractWithoutOrder query choices cutoff))
    by (apply in_extractWithoutOrder; simpl; auto).
  destruct (extractWithoutOrder query choices cutoff) as [|x l] eqn:E; [contradiction|].
  pose proof (max_by_score_in x l) as Hm. rewrite <- E in Hm.
  apply in_extractWithoutOrder in Hm. destruct Hm as [Hm1 [Hm2 Hm3]].
  exists (fst (max_by_score x l)). split; [|split].
  - cbv zeta. unfold token_set_ratio. now rewrite <- Hm2.
  - split; [exact Hm1|]. intros c' Hc'. rewrite <- Hm2.
    destruct (Qlt_le_dec (unrounded_ratio query c') (inject_Z cutoff)) as [Hlt | Hge];
      [lra|].
    assert (Hin' : In (c', unrounded_ratio query c') (x :: l)).
    { rewrite <- E. apply in_extractWithoutOrder; simpl; auto. }
    apply (max_by_score_ge x l) in Hin'. exact Hin'.
  - now rewrite <- Hm2.
Qed.

Lemma extractOne_none (query : string) (choices : list string) (cutoff : Z) :
  0 <= cutoff <= 100 ->
  (forall c, In c choices -> (unrounded_ratio query c < inject_Z cutoff)%Q) ->
  extractOne query choices cutoff = Ok None.
Proof.
  intros Hr H. unfold extractOne. rewrite (cutoff_check _ Hr).
  destruct (extractWithoutOrder query choices cutoff) as [|x l] eqn:E; [reflexivity|].
  assert (Hin : In x (extractWithoutOrder query choices cutoff)) by (rewrite E; now left).
  apply in_extractWithoutOrder in Hin. destruct Hin as [H1 [H2 H3]].
  specialize (H _ H1). rewrite H2 in H3. lra.
Qed.

Lemma extractOne_in_range (query : string) (choices : list string) (cutoff : Z)
    (r : option (string * Z)) :
  extractOne query choices cutoff = Ok r -> 0 <= cutoff <= 100.
Proof.
  unfold extractOne.
  destruct ((cutoff <? 0) || (100 <? cutoff)) eqn:E; [discriminate|].
  apply orb_false_iff in E. destruct E as [E1 E2].
  apply Z.ltb_ge in E1, E2. lia.
Qed.

Lemma extractOne_inv (query : string) (choices : list string) (cutoff : Z)
    (r : string * Z) :
  extractOne query choices cutoff = Ok (Some r) ->
  is_highest query choices (fst r)
  /\ snd r = token_set_ratio query (fst r)
  /\ (inject_Z cutoff <= unrounded_ratio query (fst r))%Q.
Proof.
  intros H. pose proof (extractOne_in_range _ _ _ _ H) as Hr.
  unfold extractOne in H. rewrite (cutoff_check _ Hr) in H.
  destruct (extractWithoutOrder query choices cutoff) as [|x l] eqn:E; [discriminate|].
  assert (Hin : In x (extractWithoutOrder query choices cutoff)) by (rewrite E; now left).
  apply in_extractWithoutOrder in Hin. destruct Hin as [H1 [H2 H3]].
  destruct (extractOne_some query choices cutoff (fst x) Hr H1) as (b & E' & Hb & Hc);
    [now rewrite <- H2|].
  unfold extractOne in E'. rewrite (cutoff_check _ Hr), E in E'.
  inversion H; subst r; clear H. inversion E' as [[Eb Es]]. cbn [fst snd].
  rewrite Es, Eb. auto.
Qed.

Lemma extractOne_None_inv (query : string) (choices : list string) (cutoff : Z) :
  extractOne query choices cutoff = Ok None ->
  forall c, In c choices -> (unrounded_ratio query c < inject_Z cutoff)%Q.
Proof.
  intros H c Hc. pose proof (extractOne_in_range _ _ _ _ H) as Hr.
  destruct (Qlt_le_dec (unrounded_ratio query c) (inject_Z cutoff)) as [Hlt | Hge];
    [exact Hlt|].
  destruct (extractOne_some query choices cutoff c Hr Hc Hge) as (b & E & _). congruence.
Qed.

Lemma is_highest_best (query : string) (choices : list string) (c : string) :
  is_highest query choices c -> is_best query choices c.
Proof.
  intros [Hin Hmax]. split; [exact Hin|]. intros c' Hc'.
  apply int_round_mono. now apply Hmax.
Qed.

(** A non-empty candidate list has a candidate of highest unrounded
    score. *)
Lemma is_highest_exists (query : string) (choices : list string) :
  choices <> [] -> exists b, is_highest query choices b.
Proof.
  induction choices as [|c l IH]; [congruence|]. intros _.
  destruct l as [|d l].
  - exists c. split; [now left|]. intros c' [<- | []]. lra.
  - destruct IH as [b [Hb1 Hb2]]; [congruence|].
    destruct (Qlt_le_dec (unrounded_ratio query b) (unrounded_ratio query c))
      as [Hlt | Hge].
    + exists c. split; [now left|]. intros c' [<- | Hc']; [lra|].
      specialize (Hb2 _ Hc'). lra.
    + exists b. split; [now right|]. intros c' [<- | Hc']; auto.
Qed.

(** Two candidates of highest unrounded score have the same rounded
    score. *)
Lemma is_highest_score (query : string) (choices : list string) (b c : string) :
  is_highest query choices b -> is_highest query choices c ->
  token_set_ratio query b = token_set_ratio query c.
Proof.
  intros [Hb1 Hb2] [Hc1 Hc2]. unfold token_set_ratio.
  apply Z.le_antisymm; apply int_round_mono; auto.
Qed.

(** On a non-empty candidate list [get_best_score] returns the rounded
    score of a candidate of highest unrounded score. *)
Lemma get_best_score_highest (name : string) (choices : list string) (b : string) :
  is_highest name choices b ->
  get_best_score name choices = Ok (token_set_ratio name b).
Proof.
  intros Hb. pose proof Hb as [Hin _].
  destruct (extractOne_some name choices 0 b) as (b' & E & Hb' & _);
    [lia | exact Hin | apply unrounded_ratio_range |].
  unfold get_best_score. rewrite E. f_equal.
  now apply (is_highest_score name choices).
Qed.

(** C1, as the code has it. On a non-empty candidate list and for a
    threshold from 0 to 100, [extract_best] returns a candidate of highest
    unrounded score when that score is at least the threshold (a score
    equal to the threshold is accepted), and nothing when it is below.
    The comparison is on the unrounded score; the integer score that
    [get_best_score] reports is that score rounded.  A threshold outside
    0..100 raises [TypeError]. *)
Theorem extract_best_threshold (query : string) (choices : list string)
    (threshold : Z) :
  choices <> [] ->
  (0 <= threshold <= 100 ->
   exists b, is_highest query choices b
     /\ get_best_score query choices = Ok (int_round (unrounded_ratio query b))
     /\ ((inject_Z threshold <= unrounded_ratio query b)%Q ->
         exists c, extract_best query choices threshold = Ok (Some c)
                   /\ is_highest query choices c)
     /\ ((unrounded_ratio query b < inject_Z threshold)%Q ->
         extract_best query choices threshold = Ok None))
  /\ (threshold < 0 \/ 100 < threshold ->
      extract_best query choices threshold = Raise TypeError).
Proof.
  intros Hne. split.
  - intros Hr. destruct (is_highest_exists query choices Hne) as [b Hb].
    exists b. split; [exact Hb|]. split; [now apply get_best_score_highest|].
    destruct Hb as [Hb1 Hb2]. split.
    + intros Hle.
      destruct (extractOne_some query choices threshold b Hr Hb1 Hle) as (c & E & Hc & _).
      exists c. unfold extract_best. rewrite E. auto.
    + intros Hlt. unfold extract_best. rewrite extractOne_none; [reflexivity|exact Hr|].
      intros c Hc. specialize (Hb2 _ Hc). lra.
  - intros Hout. unfold extract_best. now rewrite extractOne_out_of_range.
Qed.

(** C3, as the code has it. With an empty candidate list [get_best_score]
    raises (the [TypeError] of unpacking the absent result), while
    [extract_best], at a threshold from 0 to 100, returns nothing without
    raising. *)
Theorem empty_choices (query : string) (threshold : Z) :
  get_best_score query [] = Raise TypeError
  /\ (0 <= threshold <= 100 -> extract_best query [] threshold = Ok None).
Proof.
  split; [reflexivity|]. intros Hr. unfold extract_best, extractOne.
  now rewrite (cutoff_check _ Hr).
Qed.


(** The empty processed query scores 0 against every choice. *)
Lemma unrounded_ratio_empty (query choice : string) :
  processed_empty query = true -> unrounded_ratio query choice = 0%Q.
Proof. intros H. unfold unrounded_ratio. now rewrite H. Qed.



(** ** Row by row through the frames *)

Lemma mapM_length {A B : Type} (f : A -> result B) (l : list A) (l' : list B) :
  mapM f l = Ok l' -> List.length l' = List.length l.
Proof.
  revert l'; induction l as [|x l IH]; intros l' H; simpl in H.
  - now inversion H.
  - destruct (f x); [|discriminate]. cbn [bind] in H.
    destruct (mapM f l) as [ys|]; [|discriminate]. cbn [bind] in H.
    inversion H; subst. simpl. f_equal. now apply IH.
Qed.

Lemma mapM_map {A B C : Type} (g : A -> B) (f : B -> result C) (l : list A) :
  mapM f (map g l) = mapM (fun x => f (g x)) l.
Proof. induction l as [|x l IH]; simpl; [reflexivity | now rewrite IH]. Qed.

Lemma mapM_ext {A B : Type} (f g : A -> result B) (l : list A) :
  (forall x, f x = g x) -> mapM f l = mapM g l.
Proof.
  intros E. induction l as [|x l IH]; simpl; [reflexivity | now rewrite E, IH].
Qed.

Lemma mapM_pure {A B : Type} (g : A -> B) (l : list A) :
  mapM (fun x => Ok (g x)) l = Ok (map g l).
Proof. induction l as [|x l IH]; simpl; [reflexivity | now rewrite IH]. Qed.

(** Two passes over the rows are one pass of the composed function. *)
Lemma mapM_bind {A B C : Type} (f : A -> result B) (g : B -> result C)
    (l : list A) (l1 : list B) (l2 : list C) :
  mapM f l = Ok l1 -> mapM g l1 = Ok l2 ->
  mapM (fun x => y <- f x ;; g y) l = Ok l2.
Proof.
  revert l1 l2; induction l as [|x l IH]; intros l1 l2 H1 H2; simpl in *.
  - inversion H1; subst. exact H2.
  - destruct (f x) as [y|]; [|discriminate]. cbn [bind] in *.
    destruct (mapM f l) as [ys|]; [|discriminate]. cbn [bind] in H1.
    inversion H1; subst. simpl in H2.
    destruct (g y) as [z|]; [|discriminate]. cbn [bind] in *.
    destruct (mapM g ys) as [zs|] eqn:E; [|discriminate]. cbn [bind] in H2.
    now rewrite (IH ys zs eq_refl E).
Qed.

Lemma mapM_app {A B : Type} (f : A -> result B) (l1 l2 : list A) (out : list B) :
  mapM f (l1 ++ l2) = Ok out ->
  exists o1 o2, mapM f l1 = Ok o1 /\ mapM f l2 = Ok o2 /\ out = o1 ++ o2.
Proof.
  revert out; induction l1 as [|x l1 IH]; intros out H; simpl in *.
  - exists [], out. auto.
  - destruct (f x) as [y|]; [|discriminate]. cbn [bind] in *.
    destruct (mapM f (l1 ++ l2)) as [ys|] eqn:E; [|discriminate]. cbn [bind] in H.
    inversion H; subst. destruct (IH ys eq_refl) as (o1 & o2 & -> & -> & ->).
    exists (y :: o1), o2. auto.
Qed.

(** A pass over concatenated groups of rows goes group by group. *)
Lemma mapM_concat {A B : Type} (f : A -> result B) (groups : list (list A))
    (out : list B) :
  mapM f (List.concat groups) = Ok out ->
  exists groups', mapM (mapM f) groups = Ok groups' /\ out = List.concat groups'.
Proof.
  revert out; induction groups as [|g groups IH]; intros out H; simpl in *.
  - inversion H. exists []. auto.
  - apply mapM_app in H. destruct H as (o1 & o2 & H1 & H2 & ->).
    destruct (IH o2 H2) as (gs & E & ->). exists (o1 :: gs).
    rewrite H1, E. auto.
Qed.

Lemma mapM_nth_error {A B : Type} (f : A -> result B) (l : list A) (l' : list B)
    (i : nat) (x : A) :
  mapM f l = Ok l' -> nth_error l i = Some x ->
  exists y, nth_error l' i = Some y /\ f x = Ok y.
Proof.
  revert l' i; induction l as [|a l IH]; intros l' i H Hx.
  - destruct i; discriminate.
  - simpl in H. destruct (f a) as [b|] eqn:Ea; [|discriminate]. cbn [bind] in H.
    destruct (mapM f l) as [ys|] eqn:E; [|discriminate]. cbn [bind] in H.
    inversion H; subst. destruct i as [|i]; simpl in *.
    + inversion Hx; subst. eauto.
    + now apply IH.
Qed.

(** Storing the values computed from the rows is a pass over the rows. *)
Lemma setitem_mapM (df df' : DataFrame) (c : string) (h : row -> result value)
    (vals : list value) :
  mapM h (data df) = Ok vals -> setitem df c vals = Ok df' ->
  columns df' = set_label c (columns df)
  /\ mapM (fun r => v <- h r ;; Ok (set_cell (columns df) c r v)) (data df)
     = Ok (data df').
Proof.
  intros Hm Hs. unfold setitem in Hs.
  destruct (List.length vals =? List.length (data df))%nat; [|discriminate].
  inversion Hs; subst; clear Hs. simpl. split; [reflexivity|].
  revert vals Hm. generalize (columns df) as cols.
  induction (data df) as [|r rs IH]; intros cols vals Hm; simpl in *.
  - inversion Hm. reflexivity.
  - destruct (h r) as [v|]; [|discriminate]. cbn [bind] in *.
    destruct (mapM h rs) as [vs|] eqn:E; [|discriminate]. cbn [bind] in Hm.
    inversion Hm; subst. simpl. now rewrite (IH cols vs eq_refl).
Qed.

(** [df[dst] = df[src].apply(f)], one row at a time. *)
Lemma apply_column_setitem (df df' : DataFrame) (dst src : string)
    (f : value -> result value) (vals : list value) :
  apply_column df src f = Ok vals -> setitem df dst vals = Ok df' ->
  columns df' = set_label dst (columns df)
  /\ mapM (fun r => n <- cell_at (columns df) src r ;; v <- f n ;;
                    Ok (set_cell (columns df) dst r v)) (data df)
     = Ok (data df').
Proof.
  intros Ha Hs. unfold apply_column, getitem in Ha.
  destruct (index_of src (columns df)) as [i|] eqn:Ei; [|discriminate].
  cbn [bind] in Ha. rewrite mapM_map in Ha.
  destruct (setitem_mapM df df' dst _ vals Ha Hs) as [Hc Hd].
  split; [exact Hc|]. rewrite <- Hd. apply mapM_ext. intros r.
  unfold cell_at. rewrite Ei. reflexivity.
Qed.

Lemma drop_inv (df df' : DataFrame) (cs : list string) :
  drop df cs = Ok df' ->
  columns df' = drop_labels cs (columns df)
  /\ data df' = map (drop_cells (columns df) cs) (data df).
Proof.
  unfold drop. destruct (forallb _ cs); [|discriminate].
  intros H. inversion H; subst. auto.
Qed.

(** [resolve_names] computes the labels from the labels alone and treats
    every row of the merged frame on its own. *)
Lemma resolve_names_rows (reference_names : NameLists) (m out : DataFrame) :
  resolve_names reference_names m = Ok out ->
  columns out = resolve_columns (columns m)
  /\ mapM (resolve_row reference_names (columns m)) (data m) = Ok (data out).
Proof.
  unfold resolve_names. intros H.
  bind_ok H d1 E1. apply drop_inv in E1. destruct E1 as [C1 D1]. simpl in C1, D1.
  bind_ok H v1 A1. bind_ok H d2 S1.
  destruct (apply_column_setitem _ _ _ _ _ _ A1 S1) as [C2 M1].
  bind_ok H v2 A2. bind_ok H d3 S2.
  destruct (apply_column_setitem _ _ _ _ _ _ A2 S2) as [C3 M2].
  bind_ok H v3 A3. bind_ok H d4 S3.
  destruct (apply_column_setitem _ _ _ _ _ _ A3 S3) as [C4 M3].
  bind_ok H v4 A4. bind_ok H d5 S4.
  destruct (apply_column_setitem _ _ _ _ _ _ A4 S4) as [C5 M4].
  bind_ok H v5 A5. bind_ok H d6 S5. unfold apply_rows in A5.
  assert (A5' : mapM (fun r => n <- select_best_full_name (combine (columns d5) r) ;;
                               Ok (Str n)) (data d5) = Ok v5)
    by (destruct (data d5); [discriminate | exact A5]).
  clear A5; rename A5' into A5.
  destruct (setitem_mapM _ _ _ _ _ A5 S5) as [C6 M5].
  bind_ok H d7 E7. apply drop_inv in E7. destruct E7 as [C7 D7].
  inversion H; subst out; clear H. simpl. split.
  - unfold resolve_columns. now rewrite C7, C6, C5, C4, C3, C2, C1.
  - pose proof (mapM_pure (drop_cells (columns d6) score_columns) (data d6)) as K.
    rewrite <- D7 in K.
    pose proof (mapM_bind _ _ _ _ _ M5 K) as K5.
    pose proof (mapM_bind _ _ _ _ _ M4 K5) as K4.
    pose proof (mapM_bind _ _ _ _ _ M3 K4) as K3.
    pose proof (mapM_bind _ _ _ _ _ M2 K3) as K2.
    pose proof (mapM_bind _ _ _ _ _ M1 K2) as K1.
    rewrite D1, !mapM_map in K1.
    rewrite C6, C5, C4, C3, C2, C1 in K1.
    exact K1.
Qed.

(** [link_records] computes the labels from the labels alone and joins
    every transaction on its own, the joined rows following one another in
    the order of the transactions. *)
Lemma link_records_rows (transactions customers m : DataFrame) :
  link_records transactions customers = Ok m ->
  columns m = link_columns (columns transactions) (columns customers)
  /\ exists groups,
       mapM (link_row (columns transactions) customers) (data transactions)
         = Ok groups
       /\ data m = List.concat groups.
Proof.
  unfold link_records. intros H.
  bind_ok H names En. bind_ok H ext Ea. bind_ok H t1 Es.
  destruct (apply_column_setitem _ _ _ _ _ _ Ea Es) as [Ct Mt].
  unfold merge in H.
  destruct (index_of "external_name" (columns t1)) as [li|] eqn:Eli; [|discriminate].
  destruct (index_of "customer_name" (columns customers)) as [ri|] eqn:Eri;
    [|discriminate].
  inversion H; subst m; clear H. simpl. split.
  - unfold link_columns. now rewrite Ct.
  - set (J := fun l : row =>
                join_row (List.length (columns customers))
                         (matches (nth li l NaN) ri (data customers)) l).
    exists (map J (data t1)). split; [|apply flat_map_concat_map].
    pose proof (mapM_bind _ _ _ _ _ Mt (mapM_pure J (data t1))) as K.
    rewrite <- K. apply mapM_ext. intros t.
    unfold link_row, external_name_of, customer_rows.
    rewrite En. cbn [bind].
    destruct (cell_at (columns transactions) "customer_name" t) as [n|];
      [|reflexivity]. cbn [bind].
    destruct (resolve_cell names n) as [e|]; [|reflexivity]. cbn [bind].
    unfold cell_at. rewrite <- Ct, Eli, Eri. reflexivity.
Qed.

(** [main], one transaction at a time: the output labels depend on the
    input labels only, and the output rows are those of the first
    transaction, then those of the second, and so on. *)
Lemma main_rows (transactions customers : DataFrame) (reference_names : NameLists)
    (out : DataFrame) :
  main transactions customers reference_names = Ok out ->
  columns out
    = resolve_columns (link_columns (columns transactions) (columns customers))
  /\ exists groups,
       mapM (transaction_rows (columns transactions) customers reference_names)
            (data transactions) = Ok groups
       /\ data out = List.concat groups.
Proof.
  unfold main. intros H. bind_ok H m El.
  destruct (link_records_rows _ _ _ El) as [Cm (joined & Hj & Dm)].
  destruct (resolve_names_rows _ _ _ H) as [Co Ho].
  rewrite Cm in Co, Ho. split; [exact Co|].
  rewrite Dm in Ho. apply mapM_concat in Ho. destruct Ho as (groups & Hg & Do).
  exists groups. split; [|exact Do].
  exact (mapM_bind _ _ _ _ _ Hj Hg).
Qed.

(** ** Results of the join *)

Lemma value_eqb_eq (a b : value) : value_eqb a b = true -> a = b.
Proof.
  destruct a, b; simpl; try discriminate; intros H.
  - reflexivity.
  - apply String.eqb_eq in H. now subst.
  - apply Z.eqb_eq in H. now subst.
Qed.

(** Among rows with pairwise distinct keys at most one matches a key. *)
Lemma matches_unique (key : value) (ri : nat) (rows : list row) :
  NoDup (map (fun r => nth ri r NaN) rows) ->
  (List.length (matches key ri rows) <= 1)%nat.
Proof.
  unfold matches. induction rows as [|r rows IH]; intros Hnd; simpl; [lia|].
  inversion Hnd as [|k ks Hnotin Hnd']; subst.
  destruct (value_eqb key (nth ri r NaN)) eqn:E; [|auto].
  apply value_eqb_eq in E. simpl.
  enough (Hnil : filter (fun r0 => value_eqb key (nth ri r0 NaN)) rows = []).
  { rewrite Hnil. simpl. lia. }
  destruct (filter (fun r0 => value_eqb key (nth ri r0 NaN)) rows) as [|x xs] eqn:F;
    [reflexivity|].
  exfalso. apply Hnotin.
  assert (Hx : In x (filter (fun r0 => value_eqb key (nth ri r0 NaN)) rows))
    by (rewrite F; now left).
  apply filter_In in Hx. destruct Hx as [Hx1 Hx2]. apply value_eqb_eq in Hx2.
  rewrite <- E, Hx2. apply (in_map (fun r0 => nth ri r0 NaN)). exact Hx1.
Qed.

Lemma join_row_length (width : nat) (ms : list row) (l : row) :
  (1 <= List.length (join_row width ms l))%nat
  /\ ((List.length ms <= 1)%nat -> List.length (join_row width ms l) = 1%nat).
Proof.
  unfold row in *. destruct ms as [|m ms]; simpl; [lia|]. rewrite length_map. lia.
Qed.

Lemma mapM_Forall2 {A B : Type} (f : A -> result B) (l : list A) (l' : list B) :
  mapM f l = Ok l' -> Forall2 (fun x y => f x = Ok y) l l'.
Proof.
  revert l'; induction l as [|x l IH]; intros l' H; simpl in H.
  - inversion H. constructor.
  - destruct (f x) as [y|] eqn:E; [|discriminate]. cbn [bind] in H.
    destruct (mapM f l) as [ys|]; [|discriminate]. cbn [bind] in H.
    inversion H; subst. constructor; auto.
Qed.

Lemma concat_length_bounds {A : Type} (groups : list (list A)) :
  (Forall (fun g => 1 <= List.length g)%nat groups ->
   (List.length groups <= List.length (List.concat groups))%nat)
  /\ (Forall (fun g => List.length g = 1%nat) groups ->
      List.length (List.concat groups) = List.length groups).
Proof.
  split; induction 1 as [|g gs Hg _ IH]; simpl; try rewrite length_app; lia.
Qed.

(** The rows of one transaction: at least one, and exactly one when the
    customer names are pairwise distinct. *)
Lemma transaction_rows_length (tcols : list string) (customers : DataFrame)
    (reference_names : NameLists) (t : row) (g : list row) :
  transaction_rows tcols customers reference_names t = Ok g ->
  (1 <= List.length g)%nat
  /\ (forall names, getitem customers "customer_name" = Ok names -> NoDup names ->
      List.length g = 1%nat).
Proof.
  unfold transaction_rows. intros H. bind_ok H j Ej.
  apply mapM_length in H. rewrite H. clear H.
  unfold link_row in Ej. bind_ok Ej e E1. bind_ok Ej key E2.
  inversion Ej; subst j; clear Ej.
  split; [apply join_row_length|].
  intros names Hn Hnd. apply join_row_length. unfold customer_rows.
  unfold getitem in Hn.
  destruct (index_of "customer_name" (columns customers)) as [ri|]; [|discriminate].
  apply matches_unique. inversion Hn; subst. exact Hnd.
Qed.

(** C2, as the code has it. The output rows of [main] are the rows of the
    first transaction ([transaction_rows]), then those of the second, and
    so on; every transaction has at least one output row, and exactly one
    when no two customer rows carry the same [customer_name]. *)
Theorem left_join_rows (transactions customers : DataFrame)
    (reference_names : NameLists) (out : DataFrame) :
  main transactions customers reference_names = Ok out ->
  exists groups : list (list row),
    mapM (transaction_rows (columns transactions) customers reference_names)
         (data transactions) = Ok groups
    /\ data out = List.concat groups
    /\ List.length groups = List.length (data transactions)
    /\ Forall (fun g => 1 <= List.length g)%nat groups
    /\ (List.length (data transactions) <= List.length (data out))%nat
    /\ (forall names,
          getitem customers "customer_name" = Ok names -> NoDup names ->
          Forall (fun g => List.length g = 1%nat) groups
          /\ List.length (data out) = List.length (data transactions)).
Proof.
  intros H. destruct (main_rows _ _ _ _ H) as [_ (groups & Hg & Do)].
  exists groups. pose proof (mapM_length _ _ _ Hg) as Hlen.
  pose proof (mapM_Forall2 _ _ _ Hg) as HF.
  assert (H1 : Forall (fun g => 1 <= List.length g)%nat groups).
  { clear -HF. induction HF as [|t g ts gs Htg _ IH]; constructor; [|exact IH].
    now apply transaction_rows_length in Htg. }
  split; [exact Hg|]. split; [exact Do|]. split; [exact Hlen|].
  split; [exact H1|]. split.
  - rewrite Do, <- Hlen. now apply concat_length_bounds.
  - intros names Hn Hnd.
    assert (H2 : Forall (fun g => List.length g = 1%nat) groups).
    { clear -HF Hn Hnd. induction HF as [|t g ts gs Htg _ IH]; constructor;
        [|exact IH].
      apply transaction_rows_length in Htg. destruct Htg as [_ Htg]. eauto. }
    split; [exact H2|]. rewrite Do, <- Hlen. now apply concat_length_bounds.
Qed.

(** ** Results on the labels and on the blanks *)

Lemma index_of_Some (c : string) (cols : list string) (i : nat) :
  index_of c cols = Some i -> (i < List.length cols)%nat /\ mem c cols = true.
Proof.
  revert i; induction cols as [|c' cols IH]; intros i H; simpl in *; [discriminate|].
  rewrite (String.eqb_sym c c').
  destruct (String.eqb c' c); simpl.
  - inversion H. split; [lia | reflexivity].
  - destruct (index_of c cols) as [j|]; [|discriminate]. inversion H; subst.
    destruct (IH j eq_refl). split; [lia | assumption].
Qed.

Lemma index_of_None (c : string) (cols : list string) :
  index_of c cols = None ->
  mem c cols = false /\ index_of c (cols ++ [c]) = Some (List.length cols).
Proof.
  induction cols as [|c' cols IH]; intros H; simpl in *.
  - rewrite String.eqb_refl. auto.
  - rewrite (String.eqb_sym c c').
    destruct (String.eqb c' c); [discriminate|]. simpl.
    destruct (index_of c cols) as [j|]; [discriminate|].
    destruct (IH eq_refl) as [-> ->]. auto.
Qed.

(** A cell stored under a label is read back under that label. *)
Lemma cell_at_set_cell (cols : list string) (c : string) (r : row) (v : value) :
  List.length r = List.length cols ->
  cell_at (set_label c cols) c (set_cell cols c r v) = Ok v.
Proof.
  intros Hlen. unfold cell_at, set_label, set_cell.
  destruct (index_of c cols) as [i|] eqn:E.
  - destruct (index_of_Some _ _ _ E) as [Hi ->]. rewrite E. f_equal.
    rewrite app_nth2; rewrite firstn_length_le by lia; [|lia].
    now rewrite Nat.sub_diag.
  - destruct (index_of_None _ _ E) as [-> ->]. f_equal.
    rewrite app_nth2 by lia. rewrite Hlen, Nat.sub_diag. reflexivity.
Qed.


(** ** Results on the transactions without a customer *)

(** A score returned by [get_best_score] is the score of a candidate and
    is not negative. *)
Lemma get_best_score_inv (name : string) (choices : list string) (score : Z) :
  get_best_score name choices = Ok score ->
  0 <= score /\ exists c, In c choices /\ score = token_set_ratio name c.
Proof.
  unfold get_best_score.
  destruct (extractOne name choices 0) as [[[best sc]|]|] eqn:E; try discriminate.
  intros H. inversion H; subst sc; clear H.
  apply extractOne_inv in E. simpl in E. destruct E as ([H1 _] & H2 & H3).
  split; [|now exists best]. rewrite H2. apply token_set_ratio_range.
Qed.

Lemma score_token_inv (i : nat) (pool : result (list string)) (n : string)
    (v : value) :
  score_token i pool (Str n) = Ok v ->
  exists tok choices score,
    nth_error (split " " n) i = Some tok /\ pool = Ok choices
    /\ get_best_score tok choices = Ok score /\ v = Int score.
Proof.
  unfold score_token, item. cbn [split_cell bind].
  destruct (nth_error (split " " n) i) as [tok|]; [|discriminate]. cbn [bind].
  destruct pool as [choices|]; [|discriminate]. cbn [bind].
  destruct (get_best_score tok choices) as [score|] eqn:E; [|discriminate].
  cbn [bind]. intros H. inversion H. now exists tok, choices, score.
Qed.

(** When the fuzzy match of a transaction is empty, no customer row is
    joined to it: the customer names are all text. *)
Lemma customer_rows_NaN (tcols : list string) (customers : DataFrame) (t : row) :
  external_name_of tcols customers t = Ok NaN -> customer_rows customers NaN = [].
Proof.
  unfold external_name_of, customer_rows, getitem. intros H.
  destruct (index_of "customer_name" (columns customers)) as [ri|]; [|reflexivity].
  cbn [bind] in H. bind_ok H name E1. unfold resolve_cell in H.
  bind_ok H n E2. bind_ok H choices E3. clear -E3.
  unfold matches. revert choices E3.
  induction (data customers) as [|r rows IH]; intros choices E; [reflexivity|].
  simpl in E. destruct (nth ri r NaN) eqn:Ev; simpl in E; try discriminate.
  cbn [bind] in E. destruct (mapM as_str (map (fun r0 => nth ri r0 NaN) rows))
    as [cs|] eqn:E'; [|discriminate].
  simpl. rewrite Ev. simpl. now apply (IH cs).
Qed.

(** [resolve_names] on one row of the frame merged from the two input
    tables with their labels. *)
Lemma resolve_row_tables (reference_names : NameLists)
    (tid amt date cid email n1 ext cid2 email2 n2 : value) :
  let blank := fill (Str " ") in
  resolve_row reference_names (link_columns transaction_columns customer_columns)
    [tid; amt; date; cid; email; n1; ext; cid2; email2; n2]
  = (v1 <- score_token 0 (first_names reference_names) (blank n1) ;;
     v2 <- score_token 0 (first_names reference_names) (blank n2) ;;
     v3 <- score_token 1 (last_names reference_names) (blank n1) ;;
     v4 <- score_token 1 (last_names reference_names) (blank n2) ;;
     v <- (n <- select_best_full_name
                  [ ("customer_name_1", blank n1); ("customer_name_2", blank n2);
                    ("score_1", v1); ("score_2", v2);
                    ("score_last_1", v3); ("score_last_2", v4) ] ;;
           Ok (Str n)) ;;
     Ok [ blank tid; blank amt; blank date; blank cid; blank email;
          blank cid2; blank email2; v ]).
Proof.
  intros blank. unfold resolve_row, score_row, select_row.
  change (cell_at _ "customer_name_1" _) with (Ok (blank n1)) at 1. cbn [bind].
  destruct (score_token 0 (first_names reference_names) (blank n1)) as [v1|];
    [|reflexivity]. cbn [bind].
  change (cell_at _ "customer_name_2" _) with (Ok (blank n2)) at 1. cbn [bind].
  destruct (score_token 0 (first_names reference_names) (blank n2)) as [v2|];
    [|reflexivity]. cbn [bind].
  change (cell_at _ "customer_name_1" _) with (Ok (blank n1)) at 1. cbn [bind].
  destruct (score_token 1 (last_names reference_names) (blank n1)) as [v3|];
    [|reflexivity]. cbn [bind].
  change (cell_at _ "customer_name_2" _) with (Ok (blank n2)) at 1. cbn [bind].
  destruct (score_token 1 (last_names reference_names) (blank n2)) as [v4|];
    [|reflexivity]. cbn [bind].
  change (select_best_full_name (combine _ _))
    with (select_best_full_name
            [ ("customer_name_1", blank n1); ("customer_name_2", blank n2);
              ("score_1", v1); ("score_2", v2);
              ("score_last_1", v3); ("score_last_2", v4) ]).
  destruct (select_best_full_name _) as [n|]; reflexivity.
Qed.

(** ** Results of the disambiguation *)

Lemma split_not_nil (sep : ascii) (s : string) : split sep s <> [].
Proof.
  destruct s as [|c s]; simpl; [discriminate|].
  destruct (Ascii.eqb c sep); [discriminate|].
  destruct (split sep s); discriminate.
Qed.

(** Joining the pieces of a string with the separator gives it back. *)
Lemma join_split (sep : ascii) (s : string) : join sep (split sep s) = s.
Proof.
  induction s as [|c s IH]; [reflexivity|].
  pose proof (split_not_nil sep s) as Hne. simpl.
  destruct (Ascii.eqb_spec c sep) as [-> | Hc].
  - destruct (split sep s) as [|tok toks]; [congruence|].
    change (join sep (EmptyString :: tok :: toks))
      with (String sep (join sep (tok :: toks))).
    now rewrite IH.
  - destruct (split sep s) as [|tok toks]; [congruence|].
    destruct toks as [|tok' toks].
    + simpl in *. now rewrite IH.
    + change (join sep (String c tok :: tok' :: toks))
        with (String c (join sep (tok :: tok' :: toks))).
      now rewrite IH.
Qed.

Lemma scored_row_names_scores (n1 n2 : string) (s1 s2 l1 l2 : Z) :
  names_scores (scored_row n1 n2 s1 s2 l1 l2) n1 n2 s1 s2 l1 l2.
Proof. repeat split. Qed.

(** The disambiguator on a scored row: the first token comes from
    [name_2] exactly when [score_2] is strictly higher, the last token from
    [name_2] exactly when [score_last_2] is strictly higher. *)
Lemma select_best_full_name_eq (row : Series) (n1 n2 : string) (s1 s2 l1 l2 : Z) :
  names_scores row n1 n2 s1 s2 l1 l2 ->
  select_best_full_name row =
    (best_first <- item (split " " (if s1 <? s2 then n2 else n1)) 0 ;;
     best_last <- item (split " " (if l1 <? l2 then n2 else n1)) 1 ;;
     Ok (best_first ++ " " ++ best_last)%string).
Proof.
  intros (H1 & H2 & H3 & H4 & H5 & H6).
  unfold select_best_full_name.
  repeat (rewrite ?H3, ?H4; cbn [bind gt]).
  destruct (Z.ltb_spec s2 s1), (Z.ltb_spec s1 s2); try lia;
    repeat (rewrite ?H1, ?H2; cbn [bind split_cell]);
    (destruct (item (split " " _) 0) as [bf|e]; [|reflexivity]);
    cbn [bind];
    repeat (rewrite ?H5, ?H6; cbn [bind gt]);
    destruct (Z.ltb_spec l2 l1), (Z.ltb_spec l1 l2); try lia;
    repeat (rewrite ?H1, ?H2; cbn [bind split_cell]); reflexivity.
Qed.

(** C5, as the code has it. When the two names tie on the first-name
    score and on the last-name score, the output is made of the first two
    space-separated tokens of [name_1]; it is [name_1] itself when
    [name_1] has exactly two tokens. *)
Theorem tie_prefers_name_1 (row : Series) (n1 n2 : string) (s l : Z)
    (a b : string) (rest : list string) :
  names_scores row n1 n2 s s l l ->
  split " " n1 = a :: b :: rest ->
  select_best_full_name row = Ok (a ++ " " ++ b)%string
  /\ (rest = [] -> select_best_full_name row = Ok n1).
Proof.
  intros Hrow Hsplit.
  rewrite (select_best_full_name_eq row n1 n2 s s l l Hrow).
  rewrite !Z.ltb_irrefl, Hsplit. split; [reflexivity|].
  intros ->. cbn. f_equal.
  rewrite <- (join_split " " n1), Hsplit. reflexivity.
Qed.

(** C6. The first and the last token are chosen independently, each from
    the name with the strictly higher score for that token ([name_1] on a
    tie), and the output is the two joined by a space; when [name_1] wins
    the first token and [name_2] the last, the output mixes the two. *)
Theorem tokens_chosen_independently (row : Series) (n1 n2 : string)
    (s1 s2 l1 l2 : Z) :
  names_scores row n1 n2 s1 s2 l1 l2 ->
  select_best_full_name row =
    (best_first <- item (split " " (if s1 <? s2 then n2 else n1)) 0 ;;
     best_last <- item (split " " (if l1 <? l2 then n2 else n1)) 1 ;;
     Ok (best_first ++ " " ++ best_last)%string)
  /\ (s2 < s1 -> l1 < l2 ->
      forall first_1 last_2,
        nth_error (split " " n1) 0 = Some first_1 ->
        nth_error (split " " n2) 1 = Some last_2 ->
        select_best_full_name row = Ok (first_1 ++ " " ++ last_2)%string).
Proof.
  intros Hrow. split; [now apply select_best_full_name_eq|].
  intros Hs Hl first_1 last_2 Hf Hla.
  rewrite (select_best_full_name_eq row n1 n2 s1 s2 l1 l2 Hrow).
  replace (s1 <? s2) with false by (symmetry; apply Z.ltb_ge; lia).
  replace (l1 <? l2) with true by (symmetry; apply Z.ltb_lt; lia).
  unfold item. now rewrite Hf, Hla.
Qed.

(** C8, as the code has it. The names are cut at every space and the
    tokens at positions 0 and 1 are read. A name with fewer than two
    tokens makes the lookup of position 1 raise [IndexError] when that
    name supplies the last token ([name_1] unless [score_last_2] is
    strictly higher); when the short name is [name_2] and it does not
    supply the last token, the output is built without any failure. *)
Theorem short_name_index_error (row : Series) (n1 n2 : string) (s1 s2 l1 l2 : Z) :
  names_scores row n1 n2 s1 s2 l1 l2 ->
  ((List.length (split " " n1) < 2)%nat -> l2 <= l1 ->
   select_best_full_name row = Raise IndexError)
  /\ ((List.length (split " " n2) < 2)%nat -> l1 < l2 ->
      select_best_full_name row = Raise IndexError)
  /\ ((List.length (split " " n2) < 2)%nat -> l2 <= l1 ->
      forall a b rest, split " " n1 = a :: b :: rest ->
        exists best_first,
          item (split " " (if s1 <? s2 then n2 else n1)) 0 = Ok best_first
          /\ select_best_full_name row = Ok (best_first ++ " " ++ b)%string).
Proof.
  intros Hrow. rewrite (select_best_full_name_eq row n1 n2 s1 s2 l1 l2 Hrow).
  assert (Hfirst : forall n, exists f, item (split " " n) 0 = Ok f).
  { intros n. pose proof (split_not_nil " " n).
    destruct (split " " n) as [|f t]; [congruence|]. now exists f. }
  assert (Hshort : forall n, (List.length (split " " n) < 2)%nat ->
                             item (split " " n) 1 = Raise IndexError).
  { intros n Hn. destruct (split " " n) as [|f [|g t]]; simpl in *; try reflexivity; lia. }
  repeat split.
  - intros Hn Hl. replace (l1 <? l2) with false by (symmetry; apply Z.ltb_ge; lia).
    destruct (Hfirst (if s1 <? s2 then n2 else n1)) as [f ->]. cbn [bind].
    now rewrite Hshort.
  - intros Hn Hl. replace (l1 <? l2) with true by (symmetry; apply Z.ltb_lt; lia).
    destruct (Hfirst (if s1 <? s2 then n2 else n1)) as [f ->]. cbn [bind].
    now rewrite Hshort.
  - intros Hn Hl a b rest Hsplit.
    replace (l1 <? l2) with false by (symmetry; apply Z.ltb_ge; lia).
    destruct (Hfirst (if s1 <? s2 then n2 else n1)) as [f Hf]. exists f.
    split; [exact Hf|]. rewrite Hf, Hsplit. reflexivity.
Qed.

(** The empty token of the blank scores 0 against a pool on which the
    scorer gives 0 to the empty query. *)
Lemma blank_token_score (i : nat) (pool : result (list string)) (v : value) :
  (forall choices c, pool = Ok choices -> In c choices -> token_set_ratio "" c = 0) ->
  score_token i pool (Str " ") = Ok v -> v = Int 0.
Proof.
  intros Hzero H. apply score_token_inv in H.
  destruct H as (tok & choices & score & Htok & Hp & Hs & ->).
  assert (tok = "") as ->.
  { destruct i as [|[|i]]; simpl in Htok; try congruence. destruct i; discriminate. }
  apply get_best_score_inv in Hs. destruct Hs as [_ (c & Hc & ->)].
  f_equal; eauto.
Qed.

(** C10. With the labels of the two input tables, and a scorer that gives
    0 to the empty query on the reference names: a transaction whose name
    matched no customer has exactly one output row (its group among the
    groups of [transaction_rows]), and the [CUSTOMER_NAME] of that row is
    the transaction's own first token, a space, and the transaction's own
    second token. *)
Theorem unmatched_keeps_own_tokens (transactions customers : DataFrame)
    (reference_names : NameLists) (out : DataFrame) :
  main transactions customers reference_names = Ok out ->
  columns transactions = transaction_columns ->
  columns customers = customer_columns ->
  (forall key pool c, names_of reference_names key = Ok pool -> In c pool ->
                      token_set_ratio "" c = 0) ->
  exists groups : list (list row),
    mapM (transaction_rows (columns transactions) customers reference_names)
         (data transactions) = Ok groups
    /\ data out = List.concat groups
    /\ forall i tid amt date cid email name_1,
         nth_error (data transactions) i
           = Some [tid; amt; date; cid; email; Str name_1] ->
         external_name_of (columns transactions) customers
           [tid; amt; date; cid; email; Str name_1] = Ok NaN ->
         exists first second rest,
           split " " name_1 = first :: second :: rest
           /\ nth_error groups i
              = Some [ [ fill (Str " ") tid; fill (Str " ") amt;
                         fill (Str " ") date; fill (Str " ") cid;
                         fill (Str " ") email; Str " "; Str " ";
                         Str (first ++ " " ++ second) ] ].
Proof.
  intros H Ct Cc Hzero.
  destruct (main_rows _ _ _ _ H) as [_ (groups & Hg & Do)].
  exists groups. split; [exact Hg|]. split; [exact Do|].
  intros i tid amt date cid email n1 Hi He.
  destruct (mapM_nth_error _ _ _ _ _ Hg Hi) as (g & Hgi & Ht).
  unfold transaction_rows, link_row in Ht. rewrite He in Ht. cbn [bind] in Ht.
  rewrite cell_at_set_cell in Ht by (now rewrite Ct). cbn [bind] in Ht.
  rewrite (customer_rows_NaN _ _ _ He) in Ht. rewrite Ct, Cc in Ht.
  change (join_row _ [] _)
    with [[tid; amt; date; cid; email; Str n1; NaN; NaN; NaN; NaN]] in Ht.
  cbn [mapM] in Ht. rewrite resolve_row_tables in Ht. cbv zeta in Ht.
  cbn [fill] in Ht.
  bind_ok Ht r Er. cbn [bind] in Ht. inversion Ht; subst g; clear Ht.
  bind_ok Er v1 E1. bind_ok Er v2 E2. bind_ok Er v3 E3. bind_ok Er v4 E4.
  apply blank_token_score in E2; [subst v2|].
  2:{ intros choices c Hp Hc. unfold first_names in Hp.
      bind_ok Hp female Ef. bind_ok Hp male Em. inversion Hp; subst choices.
      apply in_app_or in Hc. destruct Hc; eauto. }
  apply blank_token_score in E4; [subst v4|].
  2:{ intros choices c Hp Hc. unfold last_names in Hp. eauto. }
  apply score_token_inv in E1.
  destruct E1 as (first & c1 & s1 & Hfirst & _ & Hs1 & ->).
  apply score_token_inv in E3.
  destruct E3 as (second & c3 & s3 & Hsecond & _ & Hs3 & ->).
  apply get_best_score_inv in Hs1. destruct Hs1 as [Hs1 _].
  apply get_best_score_inv in Hs3. destruct Hs3 as [Hs3 _].
  destruct (split " " n1) as [|a [|b rest]] eqn:Hsplit; try discriminate.
  simpl in Hfirst, Hsecond. inversion Hfirst; subst a. inversion Hsecond; subst b.
  exists first, second, rest. split; [reflexivity|]. rewrite Hgi. do 2 f_equal.
  rewrite (select_best_full_name_eq _ n1 " " s1 0 s3 0) in Er
    by (repeat split).
  replace (s1 <? 0) with false in Er by (symmetry; apply Z.ltb_ge; lia).
  replace (s3 <? 0) with false in Er by (symmetry; apply Z.ltb_ge; lia).
  rewrite Hsplit in Er. cbn in Er. inversion Er. reflexivity.
Qed.

(** ** Further results on the resolver *)

(** The score [get_best_score] returns is the rounded score of a
    candidate of highest unrounded score. *)
Lemma get_best_score_ok (name : string) (choices : list string) (score : Z) :
  get_best_score name choices = Ok score ->
  exists best, is_highest name choices best /\ token_set_ratio name best = score.
Proof.
  unfold get_best_score.
  destruct (extractOne name choices 0) as [[[best sc]|]|] eqn:E; try discriminate.
  intros H. inversion H; subst sc; clear H.
  apply extractOne_inv in E. simpl in E. destruct E as (Hb & Hs & _).
  exists best. auto.
Qed.

(** The score [get_best_score] returns is reached by a candidate and no
    candidate scores higher. *)
Lemma get_best_score_is_best (name : string) (choices : list string) (score : Z) :
  get_best_score name choices = Ok score ->
  exists best, is_best name choices best /\ token_set_ratio name best = score.
Proof.
  intros H. destruct (get_best_score_ok _ _ _ H) as (best & Hb & Hs).
  exists best. split; [now apply is_highest_best | exact Hs].
Qed.

(** [get_best_score] raises on the empty candidate list only, and what it
    raises is [TypeError]. *)
Lemma get_best_score_raises_nil (name : string) (choices : list string) (e : exn) :
  get_best_score name choices = Raise e <-> e = TypeError /\ choices = [].
Proof.
  split.
  - intros H. destruct choices as [|c l]; [inversion H; auto|].
    destruct (is_highest_exists name (c :: l)) as [b Hb]; [discriminate|].
    rewrite (get_best_score_highest _ _ _ Hb) in H. discriminate.
  - intros [-> ->]. reflexivity.
Qed.

(** [get_best_score] raises exactly when no candidate scores 0 or more,
    and what it raises is [TypeError]. *)
Lemma get_best_score_raises (name : string) (choices : list string) (e : exn) :
  get_best_score name choices = Raise e <->
  e = TypeError /\ forall c, In c choices -> token_set_ratio name c < 0.
Proof.
  rewrite get_best_score_raises_nil. split.
  - intros [-> ->]. split; [reflexivity|]. intros c [].
  - intros [-> H]. split; [reflexivity|]. destruct choices as [|c l]; [reflexivity|].
    specialize (H c (or_introl eq_refl)).
    pose proof (token_set_ratio_range name c). lia.
Qed.

Lemma extract_best_Some (name : string) (choices : list string)
    (threshold : Z) (c : string) :
  extract_best name choices threshold = Ok (Some c) ->
  In c choices
  /\ threshold <= token_set_ratio name c
  /\ forall c', In c' choices -> token_set_ratio name c' <= token_set_ratio name c.
Proof.
  unfold extract_best.
  destruct (extractOne name choices threshold) as [[r|]|] eqn:E; try discriminate.
  intros H. inversion H; subst c; clear H.
  pose proof (extractOne_inv _ _ _ _ E) as (Hb & Hs & Ht).
  destruct (is_highest_best _ _ _ Hb) as [Hin Hmax].
  split; [exact Hin|]. split; [|exact Hmax]. now apply int_round_ge.
Qed.

(** X1. A name returned by [extract_best] is one of the candidates, its
    score reaches the threshold, and no candidate scores higher. *)
Theorem extract_best_member (name : string) (choices : list string)
    (threshold : Z) (c : string) :
  extract_best name choices threshold = Ok (Some c) ->
  In c choices
  /\ threshold <= token_set_ratio name c
  /\ forall c', In c' choices -> token_set_ratio name c' <= token_set_ratio name c.
Proof. apply extract_best_Some. Qed.

(** X2. The two entry points agree away from the reported score: when
    [get_best_score] returns [score], then for a threshold from 0 to 100
    [extract_best] returns nothing when the threshold is above [score],
    and a candidate whose score is [score] when the threshold is below
    [score].  At the threshold [score] itself the unrounded score
    decides: the candidate is returned when its unrounded score reaches
    the threshold, and nothing is returned when rounding had lifted it. *)
Theorem entry_points_agree (name : string) (choices : list string) (score : Z) :
  get_best_score name choices = Ok score ->
  forall threshold, 0 <= threshold <= 100 ->
    (score < threshold -> extract_best name choices threshold = Ok None)
    /\ (threshold < score ->
        exists c, extract_best name choices threshold = Ok (Some c)
                  /\ token_set_ratio name c = score)
    /\ (forall b, is_highest name choices b ->
          ((inject_Z threshold <= unrounded_ratio name b)%Q ->
           exists c, extract_best name choices threshold = Ok (Some c)
                     /\ token_set_ratio name c = score)
          /\ ((unrounded_ratio name b < inject_Z threshold)%Q ->
              extract_best name choices threshold = Ok None)).
Proof.
  intros H threshold Hr.
  destruct (get_best_score_ok _ _ _ H) as (best & Hbest & Hs).
  assert (Hsome : forall b, is_highest name choices b ->
            (inject_Z threshold <= unrounded_ratio name b)%Q ->
            exists c, extract_best name choices threshold = Ok (Some c)
                      /\ token_set_ratio name c = score).
  { intros b [Hin Hmax] Hle.
    destruct (extractOne_some name choices threshold b Hr Hin Hle) as (c & E & Hc & _).
    exists c. unfold extract_best. rewrite E. split; [reflexivity|].
    rewrite <- Hs. now apply (is_highest_score name choices). }
  assert (Hnone : forall b, is_highest name choices b ->
            (unrounded_ratio name b < inject_Z threshold)%Q ->
            extract_best name choices threshold = Ok None).
  { intros b [Hin Hmax] Hlt. unfold extract_best.
    rewrite extractOne_none; [reflexivity | exact Hr |].
    intros c Hc. specialize (Hmax _ Hc). lra. }
  split; [|split].
  - intros Hlt. apply (Hnone best Hbest).
    destruct (Qlt_le_dec (unrounded_ratio name best) (inject_Z threshold)) as [L | G];
      [exact L|].
    apply int_round_ge in G. unfold token_set_ratio in Hs. lia.
  - intros Hlt. apply (Hsome best Hbest).
    destruct (Qlt_le_dec (unrounded_ratio name best) (inject_Z threshold)) as [L | G];
      [|exact G].
    apply Qlt_le_weak, int_round_le in L. unfold token_set_ratio in Hs. lia.
  - intros b Hb. split; [apply (Hsome b Hb) | apply (Hnone b Hb)].
Qed.

(** X3. [get_best_score] raises exactly when every candidate scores below
    0, the cut-off of the library; with a scorer that is never negative
    this is exactly the empty candidate list. What it raises is
    [TypeError]. *)
Theorem get_best_score_fails_iff (name : string) (choices : list string) :
  (forall e, get_best_score name choices = Raise e ->
             e = TypeError /\ forall c, In c choices -> token_set_ratio name c < 0)
  /\ ((forall c, In c choices -> token_set_ratio name c < 0) ->
      get_best_score name choices = Raise TypeError)
  /\ ((forall a b, 0 <= token_set_ratio a b) ->
      (get_best_score name choices = Raise TypeError <-> choices = [])).
Proof.
  split; [|split].
  - intros e H. now apply get_best_score_raises.
  - intros H. now apply get_best_score_raises.
  - intros Hpos. rewrite get_best_score_raises. split.
    + intros [_ H]. destruct choices as [|c l]; [reflexivity|].
      specialize (H c (or_introl eq_refl)). specialize (Hpos name c). lia.
    + intros ->. split; [reflexivity|]. intros c [].
Qed.

(** X4. The best score depends on which candidates are present only, not
    on their order or on repetitions. *)
Theorem get_best_score_same_candidates (name : string) (choices choices' : list string) :
  (forall c, In c choices <-> In c choices') ->
  get_best_score name choices = get_best_score name choices'.
Proof.
  intros Hsame. destruct (get_best_score name choices) as [s|e] eqn:E.
  - destruct (get_best_score_ok _ _ _ E) as (best & [Hin Hmax] & Hs).
    symmetry. rewrite <- Hs. apply get_best_score_highest.
    split; [now apply Hsame|]. intros c Hc. apply Hmax. now apply Hsame.
  - apply get_best_score_raises_nil in E. destruct E as [-> ->]. symmetry.
    apply get_best_score_raises_nil. split; [reflexivity|].
    destruct choices' as [|c l]; [reflexivity|].
    destruct (proj2 (Hsame c) (or_introl eq_refl)).
Qed.

(** X5. More candidates never lower the best score. *)
Theorem get_best_score_more_candidates (name : string)
    (choices choices' : list string) (score : Z) :
  incl choices choices' ->
  get_best_score name choices = Ok score ->
  exists score', get_best_score name choices' = Ok score' /\ score <= score'.
Proof.
  intros Hincl H.
  destruct (get_best_score_ok _ _ _ H) as (best & [Hin _] & Hs).
  destruct (is_highest_exists name choices') as [b' Hb'].
  { intros ->. exact (Hincl _ Hin). }
  exists (token_set_ratio name b'). split; [now apply get_best_score_highest|].
  rewrite <- Hs. apply int_round_mono. apply Hb'. now apply Hincl.
Qed.

(** Once the current best reaches the higher cut-off, the choices that
    only the lower cut-off lets through change nothing. *)
Lemma max_by_score_low_ignored (t t' : Z) (l : list (string * Q)) :
  t' <= t ->
  forall best, (inject_Z t <= snd best)%Q ->
    max_by_score best (filter (fun cs => Qle_bool (inject_Z t') (snd cs)) l)
    = max_by_score best (filter (fun cs => Qle_bool (inject_Z t) (snd cs)) l).
Proof.
  intros Hle. rewrite Zle_Qle in Hle.
  induction l as [|x l IH]; intros best Hb; simpl; [reflexivity|].
  destruct (Qle_bool (inject_Z t) (snd x)) eqn:Hx.
  - apply Qle_bool_iff in Hx.
    replace (Qle_bool (inject_Z t') (snd x)) with true
      by (symmetry; apply Qle_bool_iff; lra).
    simpl. apply IH. destruct (Qle_bool (snd x) (snd best)); assumption.
  - apply Qle_bool_false in Hx.
    destruct (Qle_bool (inject_Z t') (snd x)) eqn:Hx'; [|now apply IH].
    simpl. replace (Qle_bool (snd x) (snd best)) with true
      by (symmetry; apply Qle_bool_iff; lra).
    now apply IH.
Qed.

Lemma max_by_score_low_start (t t' : Z) (l : list (string * Q)) :
  t' <= t ->
  forall x rest, filter (fun cs => Qle_bool (inject_Z t) (snd cs)) l = x :: rest ->
  forall best, (snd best < inject_Z t)%Q ->
    max_by_score best (filter (fun cs => Qle_bool (inject_Z t') (snd cs)) l)
    = max_by_score x rest.
Proof.
  intros Hle. pose proof Hle as HleQ. rewrite Zle_Qle in HleQ.
  induction l as [|y l IH]; intros x rest Hf best Hb; simpl in *;
    [discriminate|].
  destruct (Qle_bool (inject_Z t) (snd y)) eqn:Hy.
  - apply Qle_bool_iff in Hy. inversion Hf; subst y rest; clear Hf.
    replace (Qle_bool (inject_Z t') (snd x)) with true
      by (symmetry; apply Qle_bool_iff; lra).
    simpl. replace (Qle_bool (snd x) (snd best)) with false
      by (symmetry; apply Qle_bool_false; lra).
    now apply max_by_score_low_ignored.
  - apply Qle_bool_false in Hy.
    destruct (Qle_bool (inject_Z t') (snd y)) eqn:Hy'; [|now apply IH].
    simpl. apply IH; [exact Hf|].
    destruct (Qle_bool (snd y) (snd best)); [assumption | lra].
Qed.

Lemma extractOne_lower_cutoff (query : string) (choices : list string)
    (t t' : Z) (r : string * Z) :
  0 <= t' -> t' <= t ->
  extractOne query choices t = Ok (Some r) -> extractOne query choices t' = Ok (Some r).
Proof.
  intros H0 Hle H. pose proof (extractOne_in_range _ _ _ _ H) as Hr.
  revert H. unfold extractOne.
  rewrite (cutoff_check t Hr), (cutoff_check t') by lia.
  unfold extractWithoutOrder.
  pose proof Hle as HleQ. rewrite Zle_Qle in HleQ.
  induction (map (fun c => (c, unrounded_ratio query c)) choices) as [|y l IH];
    simpl; [discriminate|].
  destruct (Qle_bool (inject_Z t) (snd y)) eqn:Hy.
  - apply Qle_bool_iff in Hy.
    replace (Qle_bool (inject_Z t') (snd y)) with true
      by (symmetry; apply Qle_bool_iff; lra).
    intros H. inversion H; subst r. do 2 f_equal.
    rewrite (max_by_score_low_ignored t t' l Hle y Hy). reflexivity.
  - apply Qle_bool_false in Hy.
    destruct (Qle_bool (inject_Z t') (snd y)) eqn:Hy'; [|exact IH].
    destruct (filter (fun cs => Qle_bool (inject_Z t) (snd cs)) l) as [|x rest] eqn:Hf;
      [discriminate|].
    intros H. inversion H; subst r. do 2 f_equal.
    rewrite (max_by_score_low_start t t' l Hle x rest Hf y Hy). reflexivity.
Qed.

(** X6. Lowering the threshold keeps an accepted match: the name returned
    at a threshold is returned at every lower threshold down to 0, the
    lowest the library accepts. *)
Theorem lower_threshold_keeps_match (name : string) (choices : list string)
    (threshold threshold' : Z) (c : string) :
  0 <= threshold' -> threshold' <= threshold ->
  extract_best name choices threshold = Ok (Some c) ->
  extract_best name choices threshold' = Ok (Some c).
Proof.
  intros H0 Hle. unfold extract_best.
  destruct (extractOne name choices threshold) as [[r|]|] eqn:E; try discriminate.
  now rewrite (extractOne_lower_cutoff _ _ _ _ _ H0 Hle E).
Qed.

(** ** Further results on the disambiguator *)

(** A token of a split contains no separator: splitting it gives it back. *)
Lemma split_token (sep : ascii) (s tok : string) :
  In tok (split sep s) -> split sep tok = [tok].
Proof.
  revert tok; induction s as [|c s IH]; intros tok Hin; simpl in Hin.
  - destruct Hin as [<- | []]. reflexivity.
  - destruct (Ascii.eqb_spec c sep) as [-> | Hc].
    + destruct Hin as [<- | Hin]; [reflexivity | now apply IH].
    + pose proof (split_not_nil sep s) as Hne.
      destruct (split sep s) as [|t ts]; [congruence|].
      destruct Hin as [<- | Hin].
      * simpl. destruct (Ascii.eqb_spec c sep) as [-> | _]; [congruence|].
        rewrite (IH t (or_introl eq_refl)). reflexivity.
      * apply IH. now right.
Qed.

(** Splitting a token followed by the separator and more text. *)
Lemma split_after_token (sep : ascii) (a b : string) :
  split sep a = [a] -> split sep (a ++ String sep b) = a :: split sep b.
Proof.
  induction a as [|c a IH]; intros Ha; simpl.
  - now rewrite Ascii.eqb_refl.
  - simpl in Ha. destruct (Ascii.eqb c sep).
    + inversion Ha.
    + destruct (split sep a) as [|t ts] eqn:E.
      * pose proof (split_not_nil sep a). congruence.
      * inversion Ha; subst t ts. now rewrite IH.
Qed.

(** X7. A name the disambiguator returns has exactly two space-separated
    tokens, the selected first token and the selected last token. *)
Theorem selected_name_has_two_tokens (row : Series) (n1 n2 : string)
    (s1 s2 l1 l2 : Z) (out : string) :
  names_scores row n1 n2 s1 s2 l1 l2 ->
  select_best_full_name row = Ok out ->
  exists best_first best_last,
    nth_error (split " " (if s1 <? s2 then n2 else n1)) 0 = Some best_first
    /\ nth_error (split " " (if l1 <? l2 then n2 else n1)) 1 = Some best_last
    /\ split " " out = [best_first; best_last].
Proof.
  intros Hrow. rewrite (select_best_full_name_eq row n1 n2 s1 s2 l1 l2 Hrow).
  unfold item.
  destruct (nth_error (split " " (if s1 <? s2 then n2 else n1)) 0) as [bf|] eqn:Ef;
    [|discriminate]. cbn [bind].
  destruct (nth_error (split " " (if l1 <? l2 then n2 else n1)) 1) as [bl|] eqn:El;
    [|discriminate]. cbn [bind].
  intros H. inversion H; subst out; clear H.
  exists bf, bl. split; [reflexivity|]. split; [reflexivity|].
  apply nth_error_In in Ef. apply nth_error_In in El.
  change (bf ++ " " ++ bl)%string with (bf ++ String " " bl)%string.
  rewrite split_after_token by (eapply split_token; exact Ef).
  now rewrite (split_token _ _ _ El).
Qed.

(** X8. On two names of at least two tokens each the disambiguator does
    not fail, whatever the scores. *)
Theorem select_best_full_name_succeeds (row : Series) (n1 n2 : string)
    (s1 s2 l1 l2 : Z) :
  names_scores row n1 n2 s1 s2 l1 l2 ->
  (2 <= List.length (split " " n1))%nat ->
  (2 <= List.length (split " " n2))%nat ->
  exists out, select_best_full_name row = Ok out.
Proof.
  intros Hrow H1 H2. rewrite (select_best_full_name_eq row n1 n2 s1 s2 l1 l2 Hrow).
  assert (Htok : forall n, (2 <= List.length (split " " n))%nat ->
                           exists a b, item (split " " n) 0 = Ok a
                                       /\ item (split " " n) 1 = Ok b).
  { intros n Hn. destruct (split " " n) as [|a [|b t]]; simpl in Hn; try lia.
    now exists a, b. }
  destruct (Htok n1 H1) as (a1 & b1 & Ha1 & Hb1).
  destruct (Htok n2 H2) as (a2 & b2 & Ha2 & Hb2).
  destruct (s1 <? s2), (l1 <? l2);
    rewrite ?Ha1, ?Ha2; cbn [bind]; rewrite ?Hb1, ?Hb2; cbn [bind]; eauto.
Qed.

(** ** Further results on main *)

Lemma index_of_not_In (c : string) (cols : list string) :
  ~ In c cols -> index_of c cols = None.
Proof.
  induction cols as [|c' cols IH]; intros H; simpl; [reflexivity|].
  destruct (String.eqb_spec c' c) as [-> | _].
  - exfalso. apply H. now left.
  - rewrite IH; [reflexivity|]. intros Hin. apply H. now right.
Qed.

(** X9. When either table has no [customer_name] column, [main] raises
    [KeyError]. *)
Theorem main_needs_name_columns (transactions customers : DataFrame)
    (reference_names : NameLists) :
  ~ In "customer_name" (columns customers)
  \/ ~ In "customer_name" (columns transactions) ->
  main transactions customers reference_names = Raise KeyError.
Proof.
  intros H. unfold main, link_records, apply_column, getitem.
  destruct (index_of "customer_name" (columns customers)) as [ri|] eqn:Ec;
    [|reflexivity].
  destruct H as [H | H].
  - apply index_of_not_In in H. congruence.
  - apply index_of_not_In in H. rewrite H. reflexivity.
Qed.

Lemma mapM_outputs {A B : Type} (f : A -> result B) (l : list A) (l' : list B) :
  mapM f l = Ok l' -> Forall (fun y => exists x, In x l /\ f x = Ok y) l'.
Proof.
  intros H. apply mapM_Forall2 in H.
  induction H as [|x y l l' Hxy _ IH]; constructor.
  - exists x. split; [now left | exact Hxy].
  - eapply Forall_impl; [|exact IH]. intros b (a & Ha & Hb). exists a.
    split; [now right | exact Hb].
Qed.

(** A score is computed from text with enough tokens and a non-empty
    pool. *)
Lemma score_token_needs (i : nat) (pool : result (list string)) (n v : value) :
  score_token i pool n = Ok v ->
  exists s tok choices,
    n = Str s /\ nth_error (split " " s) i = Some tok
    /\ pool = Ok choices /\ choices <> [].
Proof.
  destruct n as [|s|z]; try discriminate. intros H.
  destruct (score_token_inv _ _ _ _ H) as (tok & choices & score & Ht & Hp & Hs & _).
  exists s, tok, choices. repeat split; try assumption.
  intros ->. discriminate Hs.
Qed.

(** X10. A run of [main] on at least one transaction that returns has
    found the three reference lists, with at least one first name and at
    least one last name: missing or empty reference data aborts the
    run. *)
Theorem run_needs_reference_names (transactions customers : DataFrame)
    (reference_names : NameLists) (out : DataFrame) :
  main transactions customers reference_names = Ok out ->
  data transactions <> [] ->
  exists female male lasts,
    names_of reference_names "first:female" = Ok female
    /\ names_of reference_names "first:male" = Ok male
    /\ names_of reference_names "last" = Ok lasts
    /\ female ++ male <> [] /\ lasts <> [].
Proof.
  intros H Hne. destruct (main_rows _ _ _ _ H) as [_ (groups & Hg & _)].
  destruct (data transactions) as [|t ts]; [congruence|]. clear Hne.
  simpl in Hg. bind_ok Hg g Et. clear Hg.
  unfold transaction_rows in Et. bind_ok Et js Ej.
  assert (Hjs : js <> []).
  { unfold link_row in Ej. bind_ok Ej e E1. bind_ok Ej k E2. inversion Ej.
    intros Hnil. pose proof (join_row_length (List.length (columns customers))
                               (customer_rows customers k)
                               (set_cell (columns transactions) "external_name" t e))
      as [Hlen _].
    rewrite Hnil in Hlen. simpl in Hlen. lia. }
  destruct js as [|j js]; [congruence|]. simpl in Et. bind_ok Et r Er. clear Et.
  unfold resolve_row in Er.
  bind_ok Er r1 E1. bind_ok Er r2 E2. bind_ok Er r3 E3. clear Er E2.
  unfold score_row in E1, E3.
  bind_ok E1 n1 En1. bind_ok E1 v1 Ev1. bind_ok E3 n3 En3. bind_ok E3 v3 Ev3.
  apply score_token_needs in Ev1. destruct Ev1 as (s & tok & firsts & _ & _ & Hf & Hfne).
  apply score_token_needs in Ev3. destruct Ev3 as (s' & tok' & lasts & _ & _ & Hl & Hlne).
  unfold first_names in Hf. bind_ok Hf female Efe. bind_ok Hf male Ema.
  inversion Hf; subst firsts. exists female, male, lasts. auto.
Qed.

(** The candidates handed to the library are the names of the customer
    rows. *)
Lemma as_str_names {A : Type} (k : A -> value) (rows : list A) (choices : list string) :
  mapM as_str (map k rows) = Ok choices ->
  (forall r c, In r rows -> k r = Str c -> In c choices)
  /\ (forall c, In c choices -> exists r, In r rows /\ k r = Str c).
Proof.
  revert choices; induction rows as [|r0 rows IH]; intros choices H; simpl in H.
  - inversion H. split; [intros r c [] | intros c []].
  - destruct (k r0) as [|s|z] eqn:Ek; simpl in H; try discriminate. cbn [bind] in H.
    destruct (mapM as_str (map k rows)) as [cs|]; [|discriminate]. cbn [bind] in H.
    inversion H; subst choices; clear H. destruct (IH cs eq_refl) as [IH1 IH2]. split.
    + intros r c [<- | Hr] Hk.
      * left. congruence.
      * right. eauto.
    + intros c [<- | Hc].
      * exists r0. split; [now left | exact Ek].
      * destruct (IH2 c Hc) as (r & Hr & Hk). exists r. split; [now right | exact Hk].
Qed.

Lemma matches_NaN (ri : nat) (rows : list row) (choices : list string) :
  mapM as_str (map (fun r => nth ri r NaN) rows) = Ok choices ->
  matches NaN ri rows = [].
Proof.
  unfold matches. revert choices.
  induction rows as [|r rows IH]; intros choices E; [reflexivity|].
  simpl in E. destruct (nth ri r NaN) eqn:Ev; simpl in E; try discriminate.
  cbn [bind] in E. destruct (mapM as_str (map (fun r0 => nth ri r0 NaN) rows))
    as [cs|] eqn:E'; [|discriminate].
  simpl. rewrite Ev. simpl. now apply (IH cs).
Qed.

(** X12. The fuzzy match of one transaction against customers whose
    names are all text: either the match is a customer name [c] whose
    unrounded score against the transaction's name is at least 75, that no
    customer name outscores, and the customer rows the join selects are
    the rows named [c], of which there is at least one; or no customer
    name reaches 75 on its unrounded score, the match is empty and the
    join selects no customer row. *)
Theorem joined_customer_clears_threshold (tcols : list string) (customers : DataFrame)
    (t : row) (name : string) (ext : value) :
  external_name_of tcols customers t = Ok ext ->
  cell_at tcols "customer_name" t = Ok (Str name) ->
  Forall (fun r => exists c, cell_at (columns customers) "customer_name" r = Ok (Str c))
         (data customers) ->
  (exists c,
      ext = Str c
      /\ customer_rows customers ext <> []
      /\ (forall r, In r (customer_rows customers ext) <->
                    In r (data customers)
                    /\ cell_at (columns customers) "customer_name" r = Ok (Str c))
      /\ (inject_Z 75 <= unrounded_ratio name c)%Q
      /\ forall r' c', In r' (data customers) ->
           cell_at (columns customers) "customer_name" r' = Ok (Str c') ->
           (unrounded_ratio name c' <= unrounded_ratio name c)%Q)
  \/ (ext = NaN
      /\ customer_rows customers ext = []
      /\ forall r' c', In r' (data customers) ->
           cell_at (columns customers) "customer_name" r' = Ok (Str c') ->
           (unrounded_ratio name c' < inject_Z 75)%Q).
Proof.
  intros E Hcell _. unfold external_name_of, getitem in E.
  unfold customer_rows, cell_at.
  destruct (index_of "customer_name" (columns customers)) as [ri|] eqn:Ei;
    [|discriminate]. cbn [bind] in E. rewrite Hcell in E. cbn [bind] in E.
  unfold resolve_cell in E. cbn [as_str bind] in E.
  bind_ok E choices Ec. destruct (as_str_names _ _ _ Ec) as [Hin Hex].
  bind_ok E best Eb. inversion E; subst ext; clear E.
  unfold extract_best in Eb.
  destruct (extractOne name choices 75) as [[x|]|] eqn:Ex; try discriminate;
    inversion Eb; subst best; clear Eb.
  - left. exists (fst x). destruct (extractOne_inv _ _ _ _ Ex) as ([Hc Hmax] & _ & H75).
    destruct (Hex _ Hc) as (r & Hr & Hk).
    assert (Hm : forall r0, In r0 (matches (Str (fst x)) ri (data customers)) <->
                            In r0 (data customers) /\ Ok (nth ri r0 NaN) = Ok (Str (fst x))).
    { intros r0. unfold matches. rewrite filter_In. split.
      - intros [H1 H2]. apply value_eqb_eq in H2. split; [exact H1 | now rewrite <- H2].
      - intros [H1 H2]. split; [exact H1|]. inversion H2 as [H3].
        rewrite H3. simpl. apply String.eqb_refl. }
    split; [reflexivity|]. split; [|split; [exact Hm|split; [exact H75|]]].
    + intros Hnil. assert (Hr' : In r (matches (Str (fst x)) ri (data customers)))
        by (apply Hm; split; [exact Hr | now rewrite Hk]).
      rewrite Hnil in Hr'. contradiction.
    + intros r' c' Hr' Hc'. inversion Hc' as [Hk']. apply Hmax. eauto.
  - right. split; [reflexivity|]. split; [exact (matches_NaN ri _ _ Ec)|].
    intros r' c' Hr' Hc'. inversion Hc' as [Hk'].
    apply (extractOne_None_inv _ _ _ Ex). eauto.
Qed.

(** The joined rows of one transaction, with the labels of the two input
    tables and customer rows of three cells. *)
Lemma link_row_tables (customers : DataFrame) (tid amt date cid email n1 : value)
    (js : list row) :
  columns customers = customer_columns ->
  Forall (fun r => List.length r = 3%nat) (data customers) ->
  link_row transaction_columns customers [tid; amt; date; cid; email; n1] = Ok js ->
  exists ext,
    external_name_of transaction_columns customers [tid; amt; date; cid; email; n1]
      = Ok ext
    /\ js <> []
    /\ Forall (fun j => exists c2 e2 n2,
                 j = [tid; amt; date; cid; email; n1; ext; c2; e2; n2]
                 /\ (In [c2; e2; n2] (data customers)
                     \/ (c2 = NaN /\ e2 = NaN /\ n2 = NaN))) js.
Proof.
  intros Cc Hwf H. unfold link_row in H. bind_ok H ext E. exists ext.
  split; [reflexivity|].
  rewrite cell_at_set_cell in H by reflexivity. cbn [bind] in H.
  inversion H; subst js; clear H. unfold customer_rows. rewrite Cc.
  change (index_of "customer_name" customer_columns) with (Some 2%nat).
  unfold join_row. destruct (matches ext 2 (data customers)) as [|m ms] eqn:Em.
  - split; [discriminate|]. constructor; [|constructor].
    exists NaN, NaN, NaN. split; [reflexivity|]. right. auto.
  - split; [discriminate|]. apply Forall_forall. intros j Hj.
    apply in_map_iff in Hj. destruct Hj as (r & <- & Hr). rewrite <- Em in Hr.
    unfold matches in Hr. apply filter_In in Hr. destruct Hr as [Hr _].
    pose proof (proj1 (Forall_forall _ _) Hwf r Hr) as Hlen.
    destruct r as [|c2 [|e2 [|n2 [|x r]]]]; simpl in Hlen; try discriminate.
    exists c2, e2, n2. split; [reflexivity|]. now left.
Qed.

Lemma transaction_rows_tables (customers : DataFrame) (reference_names : NameLists)
    (tid amt date cid email n1 : value) (g : list row) :
  columns customers = customer_columns ->
  Forall (fun r => List.length r = 3%nat) (data customers) ->
  transaction_rows transaction_columns customers reference_names
    [tid; amt; date; cid; email; n1] = Ok g ->
  exists ext s,
    n1 = Str s
    /\ g <> []
    /\ Forall (fun r' => exists c2 e2 n2,
                 (In [c2; e2; n2] (data customers)
                  \/ (c2 = NaN /\ e2 = NaN /\ n2 = NaN))
                 /\ resolve_row reference_names
                      (link_columns transaction_columns customer_columns)
                      [tid; amt; date; cid; email; n1; ext; c2; e2; n2] = Ok r') g.
Proof.
  intros Cc Hwf H. unfold transaction_rows in H. bind_ok H js Ej. rewrite Cc in H.
  destruct (link_row_tables _ _ _ _ _ _ _ _ Cc Hwf Ej) as (ext & Hext & Hne & HF).
  assert (Hs : exists s, n1 = Str s).
  { unfold external_name_of in Hext. bind_ok Hext names En.
    change (cell_at transaction_columns "customer_name" [tid; amt; date; cid; email; n1])
      with (Ok n1) in Hext. cbn [bind] in Hext.
    unfold resolve_cell in Hext. destruct n1 as [|s|z]; try discriminate. now exists s. }
  destruct Hs as [s Hs]. exists ext, s. split; [exact Hs|]. split.
  - intros ->. apply mapM_length in H. destruct js; [congruence | discriminate].
  - apply mapM_outputs in H. eapply Forall_impl; [|exact H].
    intros r' (j & Hj & Hr). pose proof (proj1 (Forall_forall _ _) HF j Hj)
      as (c2 & e2 & n2 & -> & Hc).
    now exists c2, e2, n2.
Qed.

(** X11. With the labels of the two input tables and customer rows of
    three cells, a run of [main] that returns has found at least two
    space-separated tokens in every transaction name: a single-word
    transaction name aborts the whole run. *)
Theorem run_needs_two_tokens (transactions customers : DataFrame)
    (reference_names : NameLists) (out : DataFrame) :
  main transactions customers reference_names = Ok out ->
  columns transactions = transaction_columns ->
  columns customers = customer_columns ->
  Forall (fun r => List.length r = 3%nat) (data customers) ->
  forall tid amt date cid email n1,
    In [tid; amt; date; cid; email; n1] (data transactions) ->
    exists s first second rest,
      n1 = Str s /\ split " " s = first :: second :: rest.
Proof.
  intros H Ct Cc Hwf tid amt date cid email n1 Hin.
  destruct (main_rows _ _ _ _ H) as [_ (groups & Hg & _)].
  destruct (In_nth_error _ _ Hin) as [i Hi].
  destruct (mapM_nth_error _ _ _ _ _ Hg Hi) as (g & _ & Ht). rewrite Ct in Ht.
  destruct (transaction_rows_tables _ _ _ _ _ _ _ _ _ Cc Hwf Ht)
    as (ext & s & -> & Hne & HF).
  destruct g as [|r' g]; [congruence|]. inversion HF as [|? ? Hr _]; subst.
  destruct Hr as (c2 & e2 & n2 & _ & Hr). rewrite resolve_row_tables in Hr.
  cbv zeta in Hr. cbn [fill] in Hr.
  bind_ok Hr v1 E1. bind_ok Hr v2 E2. bind_ok Hr v3 E3.
  apply score_token_inv in E3. destruct E3 as (tok & choices & score & Htok & _).
  exists s. destruct (split " " s) as [|a [|b rest]]; try discriminate.
  now exists a, b, rest.
Qed.

(** X23. An empty customer table is no error: a run of [main] that
    returns has then exactly one output row for every transaction. *)
Theorem empty_customers_one_row_each (transactions customers : DataFrame)
    (reference_names : NameLists) (out : DataFrame) :
  main transactions customers reference_names = Ok out ->
  data customers = [] ->
  exists groups : list (list row),
    mapM (transaction_rows (columns transactions) customers reference_names)
         (data transactions) = Ok groups
    /\ data out = List.concat groups
    /\ Forall (fun g => List.length g = 1%nat) groups
    /\ List.length (data out) = List.length (data transactions).
Proof.
  intros H Hempty. destruct (main_rows _ _ _ _ H) as [_ (groups & Hg & Do)].
  exists groups. split; [exact Hg|]. split; [exact Do|].
  assert (Hn : getitem customers "customer_name" = Ok []).
  { unfold main, link_records in H. bind_ok H m Em. bind_ok Em names En.
    unfold getitem in En. rewrite Hempty in En.
    destruct (index_of "customer_name" (columns customers)); [|discriminate].
    inversion En. reflexivity. }
  assert (H1 : Forall (fun g => List.length g = 1%nat) groups).
  { pose proof (mapM_Forall2 _ _ _ Hg) as HF. clear -HF Hn.
    induction HF as [|t g ts gs Htg _ IH]; constructor; [|exact IH].
    apply transaction_rows_length in Htg. destruct Htg as [_ Htg].
    apply (Htg [] Hn). constructor. }
  split; [exact H1|]. rewrite Do, <- (mapM_length _ _ _ Hg).
  now apply concat_length_bounds.
Qed.

(** ** The run on well-formed tables *)

Lemma mapM_total {A B : Type} (f : A -> result B) (l : list A) :
  Forall (fun x => exists y, f x = Ok y) l -> exists l', mapM f l = Ok l'.
Proof.
  induction 1 as [|x l [y Hy] _ [l' IH]]; simpl.
  - now exists [].
  - rewrite Hy, IH. cbn [bind]. now exists (y :: l').
Qed.

(** One pass of a composed function is two passes. *)
Lemma mapM_bind_inv {A B C : Type} (f : A -> result B) (g : B -> result C)
    (l : list A) (out : list C) :
  mapM (fun x => y <- f x ;; g y) l = Ok out ->
  exists mid, mapM f l = Ok mid /\ mapM g mid = Ok out.
Proof.
  revert out; induction l as [|x l IH]; intros out H; simpl in H.
  - inversion H. exists []. auto.
  - destruct (f x) as [y|] eqn:Ef; [|discriminate]. cbn [bind] in H.
    destruct (g y) as [z|] eqn:Eg; [|discriminate]. cbn [bind] in H.
    destruct (mapM (fun x => y <- f x ;; g y) l) as [zs|] eqn:E; [|discriminate].
    cbn [bind] in H. inversion H; subst out.
    destruct (IH zs eq_refl) as (mid & Hm & Hg). exists (y :: mid).
    simpl. rewrite Ef, Hm, Eg, Hg. auto.
Qed.

(** A pass over the rows that stores a computed value is the computation
    of the values and their assignment. *)
Lemma setitem_total (df : DataFrame) (c : string) (h : row -> result value)
    (rows : list row) :
  mapM (fun r => v <- h r ;; Ok (set_cell (columns df) c r v)) (data df) = Ok rows ->
  exists vals,
    mapM h (data df) = Ok vals
    /\ setitem df c vals
       = Ok {| columns := set_label c (columns df); data := rows |}.
Proof.
  intros H.
  assert (G : exists vals,
             mapM h (data df) = Ok vals
             /\ List.length vals = List.length (data df)
             /\ rows = map (fun rv => set_cell (columns df) c (fst rv) (snd rv))
                           (combine (data df) vals)).
  { revert rows H. generalize (columns df) as cols.
    induction (data df) as [|r l IH]; intros cols rows H; simpl in H.
    - inversion H. exists []. auto.
    - destruct (h r) as [v|] eqn:Eh; [|discriminate]. cbn [bind] in H.
      destruct (mapM (fun r => v <- h r ;; Ok (set_cell cols c r v)) l) as [rs|] eqn:E;
        [|discriminate].
      cbn [bind] in H. inversion H; subst rows.
      destruct (IH cols rs E) as (vals & Hv & Hl & Hr). exists (v :: vals).
      simpl. rewrite Eh, Hv. cbn [bind]. rewrite Hl, Hr. auto. }
  destruct G as (vals & Hv & Hl & ->). exists vals. split; [exact Hv|].
  unfold setitem. now rewrite Hl, Nat.eqb_refl.
Qed.

Lemma apply_column_setitem_total (df : DataFrame) (dst src : string)
    (f : value -> result value) (i : nat) (rows : list row) :
  index_of src (columns df) = Some i ->
  mapM (fun r => n <- cell_at (columns df) src r ;; v <- f n ;;
                 Ok (set_cell (columns df) dst r v)) (data df) = Ok rows ->
  exists vals,
    apply_column df src f = Ok vals
    /\ setitem df dst vals
       = Ok {| columns := set_label dst (columns df); data := rows |}.
Proof.
  intros Ei H.
  destruct (setitem_total df dst (fun r => f (nth i r NaN)) rows) as (vals & Hv & Hs).
  { rewrite <- H. apply mapM_ext. intros r. unfold cell_at. now rewrite Ei. }
  exists vals. split; [|exact Hs].
  unfold apply_column, getitem. rewrite Ei. cbn [bind]. now rewrite mapM_map.
Qed.

Lemma apply_rows_setitem_total (df : DataFrame) (dst : string)
    (f : Series -> result value) (rows : list row) :
  data df <> [] ->
  mapM (fun r => v <- f (combine (columns df) r) ;;
                 Ok (set_cell (columns df) dst r v)) (data df) = Ok rows ->
  exists vals,
    apply_rows df f = Ok vals
    /\ setitem df dst vals
       = Ok {| columns := set_label dst (columns df); data := rows |}.
Proof.
  intros Hne H.
  destruct (setitem_total df dst (fun r => f (combine (columns df) r)) rows H)
    as (vals & Hv & Hs).
  exists vals. split; [|exact Hs].
  unfold apply_rows. destruct (data df); [congruence | exact Hv].
Qed.

(** With the labels of the two input tables, [resolve_names] returns
    when every row of the merged frame resolves and there is a row. *)
Lemma resolve_names_total (reference_names : NameLists) (m : DataFrame)
    (rows : list row) :
  columns m = link_columns transaction_columns customer_columns ->
  data m <> [] ->
  mapM (resolve_row reference_names (columns m)) (data m) = Ok rows ->
  resolve_names reference_names m
  = Ok {| columns := suffixed_output_columns; data := rows |}.
Proof.
  destruct m as [cols l]. cbn [columns data]. intros -> Hne H.
  unfold resolve_row in H. cbv zeta in H.
  apply mapM_bind_inv in H. destruct H as (l1 & H1 & H).
  apply mapM_bind_inv in H. destruct H as (l2 & H2 & H).
  apply mapM_bind_inv in H. destruct H as (l3 & H3 & H).
  apply mapM_bind_inv in H. destruct H as (l4 & H4 & H).
  apply mapM_bind_inv in H. destruct H as (l5 & H5 & H).
  rewrite mapM_pure in H. inversion H; subst rows; clear H.
  rewrite <- (mapM_map (fun r => drop_cells _ ["external_name"] (map (fill (Str " ")) r)))
    in H1.
  rewrite <- map_map in H1.
  assert (N5 : l4 <> []).
  { apply mapM_length in H1, H2, H3, H4. rewrite !length_map in H1.
    destruct l4; [|discriminate]. destruct l; [congruence|].
    simpl in *. lia. }
  unfold resolve_names. cbv zeta.
  change (drop (fillna (Str " ") _) ["external_name"])
    with (Ok {| columns := drop_labels ["external_name"]
                             (link_columns transaction_columns customer_columns);
                data := map (drop_cells (link_columns transaction_columns customer_columns)
                                        ["external_name"])
                            (map (map (fill (Str " "))) l) |}).
  cbn [bind].
  repeat match goal with
  | Hs : mapM (score_row _ ?dst _ _ _) ?from = Ok ?rows
    |- bind (apply_column (mkFrame ?cols ?from) ?src ?f) _ = _ =>
      let v := fresh "v" in
      let Ha := fresh "Ha" in
      let Hs' := fresh "Hs'" in
      destruct (apply_column_setitem_total (mkFrame cols from) dst src f _ rows
                  eq_refl Hs) as (v & Ha & Hs');
      match goal with
      | |- bind ?x _ = _ => replace x with (Ok v) by (symmetry; exact Ha)
      end;
      cbn [bind];
      match goal with
      | |- bind ?x _ = _ =>
          replace x with (Ok (mkFrame (set_label dst cols) rows))
            by (symmetry; exact Hs')
      end;
      cbn [bind]; clear Ha Hs' Hs
  end.
  match goal with
  | |- bind (apply_rows ?df ?f) _ = _ =>
      destruct (apply_rows_setitem_total df "customer_name" f l5 N5 H5) as (v5 & A5 & S5)
  end.
  match goal with
  | |- bind ?x _ = _ => replace x with (Ok v5) by (symmetry; exact A5)
  end.
  cbn [bind].
  match goal with
  | |- bind ?x _ = _ => rewrite S5 || (erewrite (_ : x = _) by exact S5)
  end.
  cbn [bind].
  reflexivity.
Qed.

Lemma extract_best_total (name : string) (choices : list string) (threshold : Z) :
  0 <= threshold <= 100 -> exists r, extract_best name choices threshold = Ok r.
Proof.
  intros Hr. unfold extract_best, extractOne. rewrite (cutoff_check _ Hr).
  destruct (extractWithoutOrder name choices threshold); eauto.
Qed.

Lemma get_best_score_total (name : string) (choices : list string) :
  choices <> [] -> exists score, get_best_score name choices = Ok score.
Proof.
  intros Hne. destruct (is_highest_exists name choices Hne) as [b Hb].
  rewrite (get_best_score_highest _ _ _ Hb). eauto.
Qed.

Lemma score_token_total (i : nat) (pool : result (list string))
    (choices : list string) (s : string) :
  pool = Ok choices -> choices <> [] -> (i < List.length (split " " s))%nat ->
  exists score, score_token i pool (Str s) = Ok (Int score).
Proof.
  intros -> Hne Hi. unfold score_token, item. cbn [split_cell bind].
  destruct (nth_error (split " " s) i) as [tok|] eqn:E.
  - cbn [bind]. destruct (get_best_score_total tok choices Hne) as [score ->].
    cbn [bind]. eauto.
  - apply nth_error_None in E. lia.
Qed.

(** [resolve_names] does not fail on a row of the merged frame whose
    transaction name is a full name and whose customer name is a full
    name or is missing. *)
Lemma resolve_row_total (reference_names : NameLists) (firsts lasts : list string)
    (tid amt date cid email n1 ext c2 e2 n2 : value) :
  first_names reference_names = Ok firsts -> firsts <> [] ->
  last_names reference_names = Ok lasts -> lasts <> [] ->
  full_name n1 -> n2 = NaN \/ full_name n2 ->
  exists name,
    resolve_row reference_names (link_columns transaction_columns customer_columns)
      [tid; amt; date; cid; email; n1; ext; c2; e2; n2]
    = Ok [ fill (Str " ") tid; fill (Str " ") amt; fill (Str " ") date;
           fill (Str " ") cid; fill (Str " ") email; fill (Str " ") c2;
           fill (Str " ") e2; Str name ].
Proof.
  intros Hf Hfne Hl Hlne (s1 & -> & H1) H2.
  assert (H2' : exists s2, fill (Str " ") n2 = Str s2
                           /\ (2 <= List.length (split " " s2))%nat).
  { destruct H2 as [-> | (s2 & -> & H2)]; [exists " " | exists s2]; simpl; auto. }
  destruct H2' as (s2 & E2 & H2').
  rewrite resolve_row_tables. cbv zeta. rewrite E2. cbn [fill].
  destruct (score_token_total 0 _ firsts s1 Hf Hfne) as [a1 ->]; [lia|]. cbn [bind].
  destruct (score_token_total 0 _ firsts s2 Hf Hfne) as [a2 ->]; [lia|]. cbn [bind].
  destruct (score_token_total 1 _ lasts s1 Hl Hlne) as [b1 ->]; [lia|]. cbn [bind].
  destruct (score_token_total 1 _ lasts s2 Hl Hlne) as [b2 ->]; [lia|]. cbn [bind].
  rewrite (select_best_full_name_eq _ s1 s2 a1 a2 b1 b2) by (repeat split).
  assert (Htok : forall n, (2 <= List.length (split " " n))%nat ->
                           exists a b, item (split " " n) 0 = Ok a
                                       /\ item (split " " n) 1 = Ok b).
  { intros n Hn. destruct (split " " n) as [|a [|b t]]; simpl in Hn; try lia.
    now exists a, b. }
  destruct (Htok s1 H1) as (x1 & y1 & Hx1 & Hy1).
  destruct (Htok s2 H2') as (x2 & y2 & Hx2 & Hy2).
  destruct (a1 <? a2), (b1 <? b2);
    rewrite ?Hx1, ?Hx2; cbn [bind]; rewrite ?Hy1, ?Hy2; cbn [bind]; eauto.
Qed.

(** On well-formed tables the record linker returns. *)
Lemma link_records_total (transactions customers : DataFrame) :
  columns transactions = transaction_columns ->
  columns customers = customer_columns ->
  Forall full_transaction (data transactions) ->
  Forall full_customer (data customers) ->
  exists m, link_records transactions customers = Ok m.
Proof.
  destruct transactions as [tcols ts], customers as [ccols cs]. cbn [columns data].
  intros -> -> Ht Hc. unfold link_records, apply_column, getitem. cbn [columns data].
  change (index_of "customer_name" customer_columns) with (Some 2%nat).
  change (index_of "customer_name" transaction_columns) with (Some 5%nat).
  cbn [bind].
  destruct (mapM_total as_str (map (fun r : row => nth 2 r NaN) cs)) as [choices Hch].
  { apply Forall_map. eapply Forall_impl; [|exact Hc].
    intros r (c & e & n & -> & (s & -> & _)). simpl. eauto. }
  destruct (mapM_total (resolve_cell (map (fun r : row => nth 2 r NaN) cs))
              (map (fun r : row => nth 5 r NaN) ts)) as [ext Hext].
  { apply Forall_map. eapply Forall_impl; [|exact Ht].
    intros t (tid & amt & date & cid & email & n & -> & (s & -> & _)).
    unfold resolve_cell. cbn [nth as_str bind]. rewrite Hch. cbn [bind].
    destruct (extract_best_total s choices 75) as [r ->]; [lia|]. cbn [bind]. eauto. }
  unfold row in *. rewrite Hext. cbn [bind]. unfold setitem. cbn [columns data].
  apply mapM_length in Hext. rewrite length_map in Hext. rewrite Hext, Nat.eqb_refl.
  cbn [bind]. unfold merge. cbn [columns data].
  change (index_of "external_name" (set_label "external_name" transaction_columns))
    with (Some 6%nat).
  change (index_of "customer_name" customer_columns) with (Some 2%nat). eauto.
Qed.

Lemma mapM_In {A B : Type} (f : A -> result B) (l : list A) (l' : list B)
    (x : A) (y : B) :
  mapM f l = Ok l' -> In x l -> f x = Ok y -> In y l'.
Proof.
  intros H Hx Hy. destruct (In_nth_error _ _ Hx) as [i Hi].
  destruct (mapM_nth_error _ _ _ _ _ H Hi) as (y' & Hy' & E).
  rewrite Hy in E. inversion E; subst y'. eapply nth_error_In. exact Hy'.
Qed.

Lemma get_best_score_empty (name : string) (choices : list string) :
  choices <> [] -> processed_empty name = true -> get_best_score name choices = Ok 0.
Proof.
  intros Hne Hq. destruct (is_highest_exists name choices Hne) as [b Hb].
  rewrite (get_best_score_highest _ _ _ Hb). f_equal.
  unfold token_set_ratio. now rewrite (unrounded_ratio_empty _ _ Hq).
Qed.

(** The rows of the frame merged from well-formed tables. *)
Lemma link_records_full (transactions customers m : DataFrame) :
  columns transactions = transaction_columns ->
  columns customers = customer_columns ->
  Forall full_transaction (data transactions) ->
  Forall full_customer (data customers) ->
  link_records transactions customers = Ok m ->
  columns m = link_columns transaction_columns customer_columns
  /\ (data transactions <> [] -> data m <> [])
  /\ Forall (fun j => exists tid amt date cid email n1 ext c2 e2 n2,
                j = [tid; amt; date; cid; email; n1; ext; c2; e2; n2]
                /\ full_name n1 /\ (n2 = NaN \/ full_name n2)) (data m).
Proof.
  intros Ct Cc Ht Hc El.
  destruct (link_records_rows _ _ _ El) as [Cm (groups & Hg & Dm)].
  rewrite Ct, Cc in Cm. rewrite Ct in Hg. split; [exact Cm|].
  assert (Hwf : Forall (fun r : row => List.length r = 3%nat) (data customers)).
  { eapply Forall_impl; [|exact Hc]. intros r (c & e & n & -> & _). reflexivity. }
  split.
  - intros Hne. rewrite Dm. destruct (data transactions) as [|t ts]; [congruence|].
    simpl in Hg. bind_ok Hg js Ej. bind_ok Hg gs Eg. inversion Hg; subst groups.
    inversion Ht as [|? ? (tid & amt & date & cid & email & n & -> & _) _]; subst.
    destruct (link_row_tables _ _ _ _ _ _ _ _ Cc Hwf Ej) as (ext & _ & Hjs & _).
    simpl. destruct js; [congruence | discriminate].
  - rewrite Dm. apply Forall_forall. intros j Hj. apply in_concat in Hj.
    destruct Hj as (g & Hgin & Hjg).
    pose proof (proj1 (Forall_forall _ _) (mapM_outputs _ _ _ Hg) g Hgin)
      as (t & Htin & Hlt).
    pose proof (proj1 (Forall_forall _ _) Ht t Htin)
      as (tid & amt & date & cid & email & n & -> & Hn).
    destruct (link_row_tables _ _ _ _ _ _ _ _ Cc Hwf Hlt) as (ext & _ & _ & HF).
    pose proof (proj1 (Forall_forall _ _) HF j Hjg) as (c2 & e2 & n2 & -> & Hcust).
    exists tid, amt, date, cid, email, n, ext, c2, e2, n2.
    split; [reflexivity|]. split; [exact Hn|].
    destruct Hcust as [Hin | (_ & _ & ->)]; [right | now left].
    pose proof (proj1 (Forall_forall _ _) Hc _ Hin) as (c & e & n' & E & Hn').
    inversion E; subst. exact Hn'.
Qed.

(** C9. On well-formed tables (the labels of the schema, a full name in
    every row, non-empty reference lists) [main] returns, although
    scoring a missing cell would raise: the missing cells are blanks by
    the time the scores are computed, and the two tokens of the blank
    score 0.  No cell of the output is missing, and a transaction that
    the join left without customer has an output row whose customer-side
    cells are the blank [" "]. *)
Theorem missing_cells_become_blank (transactions customers : DataFrame)
    (reference_names : NameLists) (firsts lasts : list string) :
  columns transactions = transaction_columns ->
  columns customers = customer_columns ->
  data transactions <> [] ->
  Forall full_transaction (data transactions) ->
  Forall full_customer (data customers) ->
  first_names reference_names = Ok firsts -> firsts <> [] ->
  last_names reference_names = Ok lasts -> lasts <> [] ->
  (forall i pool, score_token i pool NaN = Raise AttributeError)
  /\ score_token 0 (first_names reference_names) (Str " ") = Ok (Int 0)
  /\ score_token 1 (last_names reference_names) (Str " ") = Ok (Int 0)
  /\ exists out,
       main transactions customers reference_names = Ok out
       /\ Forall (Forall (fun v => v <> NaN)) (data out)
       /\ forall tid amt date cid email n1,
            In [tid; amt; date; cid; email; n1] (data transactions) ->
            external_name_of transaction_columns customers
              [tid; amt; date; cid; email; n1] = Ok NaN ->
            exists name,
              In [ fill (Str " ") tid; fill (Str " ") amt; fill (Str " ") date;
                   fill (Str " ") cid; fill (Str " ") email; Str " "; Str " ";
                   Str name ] (data out).
Proof.
  intros Ct Cc Hne Ht Hc Hf Hfne Hl Hlne.
  split; [reflexivity|]. split; [|split].
  - rewrite Hf. unfold score_token. cbn [split_cell split item nth_error bind].
    simpl. now rewrite get_best_score_empty.
  - rewrite Hl. unfold score_token. cbn [split_cell split item nth_error bind].
    simpl. now rewrite get_best_score_empty.
  - destruct (link_records_total _ _ Ct Cc Ht Hc) as [m El].
    destruct (link_records_full _ _ _ Ct Cc Ht Hc El) as (Cm & Hm & Hrows).
    destruct (mapM_total (resolve_row reference_names (columns m)) (data m))
      as [rows Hr].
    { rewrite Cm. eapply Forall_impl; [|exact Hrows].
      intros j (tid & amt & date & cid & email & n1 & ext & c2 & e2 & n2 & -> & H1 & H2).
      destruct (resolve_row_total reference_names firsts lasts tid amt date cid email
                  n1 ext c2 e2 n2 Hf Hfne Hl Hlne H1 H2) as [name E]. eauto. }
    pose proof (resolve_names_total _ _ _ Cm (Hm Hne) Hr) as Hres.
    exists {| columns := suffixed_output_columns; data := rows |}.
    split; [unfold main; rewrite El; exact Hres|]. cbn [data]. rewrite Cm in Hr. split.
    + apply Forall_forall. intros r Hrin.
      pose proof (proj1 (Forall_forall _ _) (mapM_outputs _ _ _ Hr) r Hrin)
        as (j & Hj & Hjr).
      pose proof (proj1 (Forall_forall _ _) Hrows j Hj)
        as (tid & amt & date & cid & email & n1 & ext & c2 & e2 & n2 & -> & H1 & H2).
      destruct (resolve_row_total reference_names firsts lasts tid amt date cid email
                  n1 ext c2 e2 n2 Hf Hfne Hl Hlne H1 H2) as [name E].
      rewrite E in Hjr. inversion Hjr; subst r.
      repeat constructor; try discriminate;
        match goal with |- fill _ ?x <> NaN => destruct x; discriminate end.
    + intros tid amt date cid email n1 Hin He.
      destruct (link_records_rows _ _ _ El) as [_ (groups & Hg & Dm)].
      assert (Hj : In [tid; amt; date; cid; email; n1; NaN; NaN; NaN; NaN] (data m)).
      { rewrite Dm. apply in_concat.
        exists [[tid; amt; date; cid; email; n1; NaN; NaN; NaN; NaN]].
        split; [|now left].
        apply (mapM_In _ _ _ _ _ Hg Hin). rewrite Ct.
        unfold link_row. rewrite He. cbn [bind].
        rewrite cell_at_set_cell by reflexivity. cbn [bind].
        rewrite (customer_rows_NaN _ _ _ He), Cc. reflexivity. }
      pose proof (proj1 (Forall_forall _ _) Hrows _ Hj)
        as (tid' & amt' & date' & cid' & email' & n1' & ext & c2 & e2 & n2 & E & H1 & _).
      inversion E; subst.
      destruct (resolve_row_total reference_names firsts lasts tid' amt' date' cid'
                  email' n1' NaN NaN NaN NaN Hf Hfne Hl Hlne H1 (or_introl eq_refl))
        as [name Er].
      exists name. exact (mapM_In _ _ _ _ _ Hr Hj Er).
Qed.

(** ** Results on the connection, the table and the upload *)

(** X15. [connect_to_snowflake] never raises [ProgrammingError]: it
    returns [None] exactly when [connect] raised it, returns the
    connection exactly when [connect] returned it, and lets any other
    exception through after the one call. *)
Theorem connect_failure_becomes_none (verbose : bool) (tr : list event) :
  (forall msg, snd (connect_to_snowflake verbose tr) <> Raises (ProgrammingError msg))
  /\ (snd (connect_to_snowflake verbose tr) = Returns None <->
      exists msg, connect env tr credentials = Raises (ProgrammingError msg))
  /\ (forall c, snd (connect_to_snowflake verbose tr) = Returns (Some c) <->
                connect env tr credentials = Returns c)
  /\ (forall r, (forall msg, r <> ProgrammingError msg) ->
                connect env tr credentials = Raises r ->
                connect_to_snowflake verbose tr
                = (tr ++ [Connect credentials], Raises r)).
Proof.
  unfold connect_to_snowflake, catch, andthen, call, say, print, ret.
  destruct (connect env tr credentials) as [c | r] eqn:E.
  - destruct verbose; simpl; repeat split; try discriminate;
      try (intros H; inversion H; reflexivity);
      try (intros [msg H]; discriminate H);
      intros r _ H; discriminate H.
  - destruct r; destruct verbose; simpl; repeat split; try discriminate;
      try (intros _; eexists; reflexivity);
      try (intros [m H]; discriminate H);
      try (intros r Hr H; inversion H; subst; try reflexivity;
           exfalso; eapply Hr; reflexivity);
      try (intros r0 Hr H; inversion H; reflexivity).
Qed.

(** X16. [create_table] turns every [Exception] into [False]: it raises
    only what [except Exception] does not catch; on a missing connection
    it returns [False] without any call to the warehouse; and it returns
    [True] only after the statement was executed. *)
Theorem create_table_catches_exceptions (conn : option Connection)
    (table_name : string) (verbose : bool) (tr : list event) :
  (forall r, snd (create_table conn table_name verbose tr) = Raises r ->
             is_Exception r = false)
  /\ (conn = None ->
      snd (create_table conn table_name verbose tr) = Returns false
      /\ filter (fun e => negb (is_print e)) (fst (create_table conn table_name verbose tr))
         = filter (fun e => negb (is_print e)) tr)
  /\ (snd (create_table conn table_name verbose tr) = Returns true ->
      exists cur, In (Execute cur (create_table_query table_name))
                     (fst (create_table conn table_name verbose tr))).
Proof.
  unfold create_table, with_cursor, catch, andthen, call, say, print, ret, raise.
  split; [|split].
  - intros r H. destruct conn as [c|]; simpl in H.
    + repeat answer_in H; try discriminate H; inversion H; subst; assumption.
    + repeat answer_in H; discriminate H.
  - intros ->. simpl. destruct verbose; simpl; split; try reflexivity.
    rewrite filter_app. simpl. now rewrite app_nil_r.
  - destruct conn as [c|]; simpl.
    + destruct (cursor env tr c) as [cur | r1] eqn:Ec; simpl.
      * intros H. exists cur. revert H.
        repeat answer; try discriminate; intros _;
          repeat (rewrite in_app_iff; simpl); auto 10.
      * repeat answer; discriminate.
    + repeat answer; discriminate.
Qed.

(** X17. When the tabular part raises, [main] raises the same exception
    before anything is done outside: no connection, no statement, no
    output. *)
Theorem tabular_failure_stops_run (transactions customers : DataFrame)
    (reference_names : NameLists) (table_name : string) (verbose : bool)
    (tr : list event) (e : exn) :
  main transactions customers reference_names = Raise e ->
  main_upload transactions customers reference_names table_name verbose tr
  = (tr, Raises (Tabular e)).
Proof.
  intros H. unfold main_upload, andthen, tabular. now rewrite H.
Qed.

(** X18. When [connect] raises [ProgrammingError], [main] goes on without
    a connection: it opens no cursor, hands [None] to [write_pandas] with
    the frame and the upper-case table name, and never returns; if
    [write_pandas] returns, the run ends in the [AttributeError] of
    [conn.close()]. *)
Theorem run_without_connection (transactions customers : DataFrame)
    (reference_names : NameLists) (table_name : string) (verbose : bool)
    (tr : list event) (merged_df : DataFrame) (msg : string) :
  main transactions customers reference_names = Ok merged_df ->
  connect env tr credentials = Raises (ProgrammingError msg) ->
  let run := main_upload transactions customers reference_names table_name verbose tr in
  (exists r, snd run = Raises r)
  /\ In (WritePandas None merged_df (upper table_name)) (fst run)
  /\ (forall e, In e (fst run) -> In e tr \/ forall c cur q,
        e <> OpenCursor c /\ e <> Execute cur q /\ e <> Close c)
  /\ (forall r, snd run = Raises r ->
        r = NoneAttribute "close"
        \/ exists tr', write_pandas env tr' None merged_df (upper table_name) = Raises r).
Proof.
  intros Hm Hc run. subst run.
  unfold main_upload, andthen, tabular, connect_to_snowflake, catch, call, create_table,
    with_cursor, close_connection, say, print, ret, raise.
  rewrite Hm. cbn. rewrite Hc. cbn.
  destruct verbose; cbn;
    (match goal with
     | |- context [write_pandas env ?t None merged_df (upper table_name)] =>
         destruct (write_pandas env t None merged_df (upper table_name))
           as [[[success nchunks] nrows] | r] eqn:Ew
     end);
    try destruct success; cbn;
    (split; [eexists; reflexivity|]);
    (split; [repeat (rewrite in_app_iff; simpl); auto 10|]);
    (split;
     [intros e He; repeat (rewrite in_app_iff in He; simpl in He);
      repeat (destruct He as [He | He]; try (left; exact He);
              try (right; subst e; repeat split; discriminate));
      contradiction
     |intros r0 Hr; inversion Hr; subst; eauto]).
Qed.

(** X19. [main] does not look at the result of [create_table]: whether
    the table was created or not, [write_pandas] is called next, with the
    connection, the frame of the tabular part and the upper-case table
    name. *)
Theorem create_table_result_ignored (transactions customers : DataFrame)
    (reference_names : NameLists) (table_name : string) (verbose : bool)
    (tr tr1 tr2 : list event) (merged_df : DataFrame) (conn : option Connection)
    (created : bool) :
  main transactions customers reference_names = Ok merged_df ->
  connect_to_snowflake verbose tr = (tr1, Returns conn) ->
  create_table conn (upper table_name) verbose tr1 = (tr2, Returns created) ->
  exists evs,
    fst (main_upload transactions customers reference_names table_name verbose tr)
    = tr2 ++ WritePandas conn merged_df (upper table_name) :: evs.
Proof.
  intros Hm Hc Ht. unfold main_upload, andthen at 1 2 3, tabular. rewrite Hm. cbn.
  rewrite Hc, Ht. unfold andthen, call, close_connection, say, print, ret, raise.
  destruct (write_pandas env tr2 conn merged_df (upper table_name))
    as [[[success nchunks] nrows] | r]; cbn.
  - destruct success, verbose, conn as [c|]; cbn;
      try (destruct (close env _ c) as [[] | r]; cbn);
      repeat rewrite <- app_assoc; cbn; eexists; reflexivity.
  - exists []. reflexivity.
Qed.

(** X20. When [write_pandas] raises, [main] raises the same exception
    and the connection is left open: the call of [write_pandas] is the
    last thing done. *)
Theorem failed_upload_leaves_connection_open (transactions customers : DataFrame)
    (reference_names : NameLists) (table_name : string) (verbose : bool)
    (tr tr1 tr2 : list event) (merged_df : DataFrame) (conn : option Connection)
    (created : bool) (r : raised) :
  main transactions customers reference_names = Ok merged_df ->
  connect_to_snowflake verbose tr = (tr1, Returns conn) ->
  create_table conn (upper table_name) verbose tr1 = (tr2, Returns created) ->
  write_pandas env tr2 conn merged_df (upper table_name) = Raises r ->
  main_upload transactions customers reference_names table_name verbose tr
  = (tr2 ++ [WritePandas conn merged_df (upper table_name)], Raises r).
Proof.
  intros Hm Hc Ht Hw. unfold main_upload, andthen at 1 2 3, tabular. rewrite Hm. cbn.
  rewrite Hc, Ht. unfold andthen, call. now rewrite Hw.
Qed.

(** X21. When [write_pandas] reports a failure, [main] still closes the
    connection and returns; it raises nothing of its own. *)
Theorem reported_failure_still_closes (transactions customers : DataFrame)
    (reference_names : NameLists) (table_name : string) (verbose : bool)
    (tr tr1 tr2 : list event) (merged_df : DataFrame) (c : Connection)
    (created : bool) (nchunks nrows : Z) :
  main transactions customers reference_names = Ok merged_df ->
  connect_to_snowflake verbose tr = (tr1, Returns (Some c)) ->
  create_table (Some c) (upper table_name) verbose tr1 = (tr2, Returns created) ->
  write_pandas env tr2 (Some c) merged_df (upper table_name)
    = Returns (false, nchunks, nrows) ->
  let run := main_upload transactions customers reference_names table_name verbose tr in
  In (Close c) (fst run)
  /\ ((forall tr', close env tr' c = Returns tt) -> snd run = Returns tt).
Proof.
  intros Hm Hc Ht Hw run. subst run.
  split; [|intros Hclose];
    unfold main_upload, andthen at 1 2 3, tabular; rewrite Hm; cbn;
    rewrite Hc, Ht; unfold andthen, call, close_connection, say, print, ret;
    rewrite Hw; destruct verbose; cbn.
  - destruct (close env _ c) as [[] | r]; cbn;
      repeat (rewrite in_app_iff; simpl); auto 10.
  - destruct (close env _ c) as [[] | r]; cbn;
      repeat (rewrite in_app_iff; simpl); auto 10.
  - now rewrite Hclose.
  - now rewrite Hclose.
Qed.

Lemma silent_ret {A : Type} (a : A) : silent (ret a).
Proof. intros tr. reflexivity. Qed.

Lemma silent_raise {A : Type} (r : raised) : silent (@raise A r).
Proof. intros tr. reflexivity. Qed.

Lemma silent_call {A : Type} (e : event) (answer : list event -> outcome A) :
  is_print e = false -> silent (call e answer).
Proof.
  intros He tr. unfold call. simpl. rewrite filter_app. simpl. rewrite He.
  apply app_nil_r.
Qed.

Lemma silent_andthen {A B : Type} (m : action A) (k : A -> action B) :
  silent m -> (forall a, silent (k a)) -> silent (andthen m k).
Proof.
  intros Hm Hk tr. unfold andthen. specialize (Hm tr).
  destruct (m tr) as [tr' [a|r]]; simpl in *; [|exact Hm].
  now rewrite (Hk a tr').
Qed.

Lemma silent_catch {A : Type} (m : action A) (h : raised -> option (action A)) :
  silent m -> (forall r handler, h r = Some handler -> silent handler) ->
  silent (catch m h).
Proof.
  intros Hm Hh tr. unfold catch. specialize (Hm tr).
  destruct (m tr) as [tr' [a|r]]; simpl in *; [exact Hm|].
  destruct (h r) as [handler|] eqn:E; simpl; [|exact Hm].
  now rewrite (Hh r handler E tr').
Qed.

Lemma silent_with_cursor {A : Type} (conn : option Connection)
    (body : Cursor -> action A) :
  (forall cur, silent (body cur)) -> silent (with_cursor conn body).
Proof.
  intros Hb. unfold with_cursor. destruct conn as [c|]; [|apply silent_raise].
  apply silent_andthen; [now apply silent_call|].
  intros cur tr. specialize (Hb cur tr).
  destruct (body cur tr) as [tr' [a|r]]; simpl in Hb; rewrite <- Hb;
    apply silent_andthen;
    try (now apply silent_call); intros; try apply silent_ret; apply silent_raise.
Qed.

(** X22. With [verbose] false [main] prints nothing, whatever the
    outside answers and however the run ends. *)
Theorem quiet_run_prints_nothing (transactions customers : DataFrame)
    (reference_names : NameLists) (table_name : string) (tr : list event) :
  filter is_print
    (fst (main_upload transactions customers reference_names table_name false tr))
  = filter is_print tr.
Proof.
  revert tr. change (silent (main_upload transactions customers reference_names
                               table_name false)).
  unfold main_upload. apply silent_andthen.
  { unfold tabular. destruct (main transactions customers reference_names);
      [apply silent_ret | apply silent_raise]. }
  intros merged_df. apply silent_andthen.
  { unfold connect_to_snowflake. apply silent_catch.
    - apply silent_andthen; [now apply silent_call|]. intros c.
      apply silent_andthen; [apply silent_ret|]. intros _. apply silent_ret.
    - intros r handler H. destruct r; inversion H.
      apply silent_andthen; [apply silent_ret|]. intros _. apply silent_ret. }
  intros conn. apply silent_andthen.
  { unfold create_table. apply silent_catch.
    - apply silent_with_cursor. intros cur.
      apply silent_andthen; [now apply silent_call|]. intros _.
      apply silent_andthen; [apply silent_ret|]. intros _. apply silent_ret.
    - intros r handler H. destruct (is_Exception r); inversion H.
      apply silent_andthen; [apply silent_ret|]. intros _. apply silent_ret. }
  intros _. apply silent_andthen; [now apply silent_call|].
  intros [[success nchunks] nrows]. apply silent_andthen.
  { destruct success; apply silent_ret. }
  intros _. apply silent_andthen.
  { unfold close_connection. destruct conn as [c|];
      [now apply silent_call | apply silent_raise]. }
  intros _. apply silent_ret.
Qed.

End Resolver.

(** ** The statements at concrete inputs *)

(** The scores of the sample similarity. *)
Lemma no_similarity_nonneg (a b : string) : 0 <= token_set_ratio no_similarity a b.
Proof. apply token_set_ratio_range. Qed.

Lemma extract_best_threshold_witness :
  (exists c, extract_best no_similarity "John Smith" ["Alice Smith"; "John Smith"] 75
             = Ok (Some c)
             /\ is_highest no_similarity "John Smith" ["Alice Smith"; "John Smith"] c)
  /\ extract_best no_similarity "John Smith" ["Alice Smith"] 75 = Ok None
  /\ extract_best no_similarity "John Smith" ["Alice Smith"] 101 = Raise TypeError.
Proof.
  split; [|split].
  - destruct (extract_best_threshold no_similarity "John Smith"
                ["Alice Smith"; "John Smith"] 75) as [Hin _]; [discriminate|].
    destruct Hin as (b & [_ Hmax] & _ & Hacc & _); [lia|].
    apply Hacc. eapply Qle_trans; [|exact (Hmax "John Smith" (or_intror (or_introl eq_refl)))].
    vm_compute. discriminate.
  - destruct (extract_best_threshold no_similarity "John Smith" ["Alice Smith"] 75)
      as [Hin _]; [discriminate|].
    destruct Hin as (b & [Hb _] & _ & _ & Hrej); [lia|].
    apply Hrej. destruct Hb as [<- | []]. reflexivity.
  - destruct (extract_best_threshold no_similarity "John Smith" ["Alice Smith"] 101)
      as [_ Hout]; [discriminate|].
    apply Hout. right. lia.
Defined.

(** C1, as the claim has it, fails: the score of ["ab"] against ["a"] is
    two thirds of 100, which [get_best_score] reports as 67; at the
    threshold 67 the best score reported equals the threshold, and
    [extract_best] returns nothing.  At the threshold 101 it raises
    instead of returning nothing. *)
Lemma reported_score_rejected :
  get_best_score indel_similarity "ab" ["a"] = Ok 67
  /\ extract_best indel_similarity "ab" ["a"] 67 = Ok None
  /\ extract_best indel_similarity "ab" ["a"] 101 = Raise TypeError.
Proof. repeat split; vm_compute; reflexivity. Qed.

(** C3, as the claim has it, fails: on an empty candidate list
    [extract_best] raises nothing and returns the [None] sentinel. *)
Lemma extract_best_empty_silent :
  ~ (forall (query : string) (threshold : Z),
        (exists e, get_best_score no_similarity query [] = Raise e)
        /\ (exists e, extract_best no_similarity query [] threshold = Raise e)).
Proof.
  intros H. destruct (H "John Smith" 75) as [_ [e He]]. discriminate He.
Qed.

Lemma empty_choices_witness :
  get_best_score no_similarity "John Smith" [] = Raise TypeError
  /\ extract_best no_similarity "John Smith" [] 75 = Ok None.
Proof.
  destruct (empty_choices no_similarity "John Smith" 75) as [A B].
  split; [exact A | apply B; lia].
Defined.



(** C5, as the claim has it, fails: with both names equal, hence all
    scores tied, a three-token [name_1] is not returned verbatim. *)
Lemma tie_truncates_name_1 :
  ~ (forall (n1 n2 : string) (s l : Z),
        select_best_full_name (scored_row n1 n2 s s l l) = Ok n1).
Proof.
  intros H. specialize (H "Mary Ann Smith" "Mary Ann Smith" 100 0).
  vm_compute in H. discriminate H.
Qed.

Lemma tie_prefers_name_1_witness :
  select_best_full_name (scored_row "John Smith" "Jon Smith" 100 100 100 100)
    = Ok "John Smith"
  /\ select_best_full_name (scored_row "John Smith" "Jon Smith" 100 100 100 100)
     = Ok "John Smith".
Proof.
  destruct (tie_prefers_name_1 (scored_row "John Smith" "Jon Smith" 100 100 100 100)
              "John Smith" "Jon Smith" 100 100 "John" "Smith" []
              (scored_row_names_scores _ _ _ _ _ _) eq_refl) as [H1 H2].
  split; [exact H1 | exact (H2 eq_refl)].
Defined.

Lemma tokens_chosen_independently_witness :
  select_best_full_name (scored_row "John Smxth" "Jon Smyth" 100 86 40 80)
    = Ok "John Smyth".
Proof.
  destruct (tokens_chosen_independently
              (scored_row "John Smxth" "Jon Smyth" 100 86 40 80)
              "John Smxth" "Jon Smyth" 100 86 40 80
              (scored_row_names_scores _ _ _ _ _ _)) as [_ H].
  apply (H ltac:(lia) ltac:(lia) "John" "Smyth"); reflexivity.
Defined.

(** C8, as the claim has it, fails: a single-word [name_2] that does not
    win the last token goes through, and the output is returned. *)
Lemma short_name_2_goes_through :
  ~ (forall (n1 n2 : string) (s1 s2 l1 l2 : Z),
        (List.length (split " " n1) < 2 \/ List.length (split " " n2) < 2)%nat ->
        exists e, select_best_full_name (scored_row n1 n2 s1 s2 l1 l2) = Raise e).
Proof.
  intros H.
  destruct (H "John Smith" "Madonna" 100 50 100 0) as [e He].
  - right. vm_compute. lia.
  - vm_compute in He. discriminate He.
Qed.

Lemma short_name_index_error_witness :
  select_best_full_name (scored_row "Madonna" "John Smith" 50 100 0 0)
    = Raise IndexError
  /\ select_best_full_name (scored_row "John Smith" "Madonna" 100 50 0 40)
     = Raise IndexError
  /\ exists best_first,
       item (split " " "John Smith") 0 = Ok best_first
       /\ select_best_full_name (scored_row "John Smith" "Madonna" 100 50 100 0)
          = Ok (best_first ++ " " ++ "Smith")%string.
Proof.
  destruct (short_name_index_error (scored_row "Madonna" "John Smith" 50 100 0 0)
              "Madonna" "John Smith" 50 100 0 0 (scored_row_names_scores _ _ _ _ _ _))
    as (A & _ & _).
  destruct (short_name_index_error (scored_row "John Smith" "Madonna" 100 50 0 40)
              "John Smith" "Madonna" 100 50 0 40 (scored_row_names_scores _ _ _ _ _ _))
    as (_ & B & _).
  destruct (short_name_index_error (scored_row "John Smith" "Madonna" 100 50 100 0)
              "John Smith" "Madonna" 100 50 100 0 (scored_row_names_scores _ _ _ _ _ _))
    as (_ & _ & C).
  split; [|split].
  - apply A; [vm_compute; lia | lia].
  - apply B; [vm_compute; lia | lia].
  - apply (C ltac:(vm_compute; lia) ltac:(lia) "John" "Smith" []). reflexivity.
Defined.

(** The sample runs. *)
Lemma main_sample :
  main no_similarity sample_transactions sample_customers sample_names
  = Ok sample_output.
Proof. vm_compute. reflexivity. Qed.

Lemma main_twin :
  main no_similarity sample_transactions twin_customers sample_names = Ok twin_output.
Proof. vm_compute. reflexivity. Qed.

Lemma main_plain :
  main no_similarity plain_transactions sample_customers sample_names
  = Ok plain_output.
Proof. vm_compute. reflexivity. Qed.

Lemma main_stray :
  main no_similarity stray_transactions sample_customers sample_names
  = Ok stray_output.
Proof. vm_compute. reflexivity. Qed.

Lemma link_stray :
  link_records no_similarity stray_transactions sample_customers = Ok stray_merged.
Proof. vm_compute. reflexivity. Qed.

(** C2, as the claim has it, fails: with two customer rows named alike,
    the one transaction that resolves to that name has two output rows. *)
Lemma twin_customers_fan_out :
  main no_similarity sample_transactions twin_customers sample_names = Ok twin_output
  /\ List.length (data twin_output) = 2%nat
  /\ List.length (data sample_transactions) = 1%nat
  /\ List.length (data twin_output) <> List.length (data sample_transactions).
Proof.
  split; [exact main_twin|]. repeat split. discriminate.
Qed.

Lemma left_join_rows_witness :
  exists groups,
    data sample_output = List.concat groups
    /\ List.length groups = 1%nat
    /\ Forall (fun g => List.length g = 1%nat) groups
    /\ List.length (data sample_output) = 1%nat.
Proof.
  destruct (left_join_rows no_similarity sample_transactions sample_customers
              sample_names sample_output main_sample)
    as (groups & _ & H1 & H2 & _ & _ & H3).
  destruct (H3 [Str "John Smith"] eq_refl) as [H4 H5].
  { repeat constructor. intros []. }
  exists groups. auto.
Defined.



Lemma stray_transactions_full : Forall full_transaction (data stray_transactions).
Proof.
  repeat constructor. do 6 eexists. split; [reflexivity|].
  eexists. split; [reflexivity | simpl; lia].
Qed.

Lemma sample_customers_full : Forall full_customer (data sample_customers).
Proof.
  repeat constructor. do 3 eexists. split; [reflexivity|].
  eexists. split; [reflexivity | simpl; lia].
Qed.

Lemma stray_unmatched :
  external_name_of no_similarity transaction_columns sample_customers
    [Int 2; Int 90; Str "2024-02-11"; Int 9; Str "zq@z.org"; Str "Zyx Qwerty"]
  = Ok NaN.
Proof. vm_compute. reflexivity. Qed.

Lemma missing_cells_become_blank_witness :
  exists out,
    main no_similarity stray_transactions sample_customers sample_names = Ok out
    /\ exists name,
         In [ Int 2; Int 90; Str "2024-02-11"; Int 9; Str "zq@z.org"; Str " ";
              Str " "; Str name ] (data out).
Proof.
  destruct (missing_cells_become_blank no_similarity stray_transactions
              sample_customers sample_names ["Mary"; "John"] ["Smith"])
    as (_ & _ & _ & out & Hmain & _ & Hrow).
  - reflexivity.
  - reflexivity.
  - discriminate.
  - exact stray_transactions_full.
  - exact sample_customers_full.
  - reflexivity.
  - discriminate.
  - reflexivity.
  - discriminate.
  - exists out. split; [exact Hmain|].
    apply (Hrow (Int 2) (Int 90) (Str "2024-02-11") (Int 9) (Str "zq@z.org")
             (Str "Zyx Qwerty")); [now left | exact stray_unmatched].
Defined.

Lemma no_similarity_blank (key : string) (pool : list string) (c : string) :
  names_of sample_names key = Ok pool -> In c pool ->
  token_set_ratio no_similarity "" c = 0.
Proof. reflexivity. Qed.

Lemma unmatched_keeps_own_tokens_witness :
  exists groups,
    data stray_output = List.concat groups
    /\ exists first second rest,
         split " " "Zyx Qwerty" = first :: second :: rest
         /\ nth_error groups 0
            = Some [ [ Int 2; Int 90; Str "2024-02-11"; Int 9; Str "zq@z.org";
                       Str " "; Str " "; Str (first ++ " " ++ second) ] ].
Proof.
  destruct (unmatched_keeps_own_tokens no_similarity stray_transactions
              sample_customers sample_names stray_output main_stray eq_refl eq_refl
              no_similarity_blank) as (groups & _ & Hd & Hrow).
  exists groups. split; [exact Hd|].
  apply (Hrow 0%nat (Int 2) (Int 90) (Str "2024-02-11") (Int 9) (Str "zq@z.org")
           "Zyx Qwerty"); reflexivity.
Defined.

(** ** The further results at concrete inputs *)

Lemma extract_best_sample :
  extract_best no_similarity "John Smith" ["Alice Smith"; "John Smith"] 75
  = Ok (Some "John Smith").
Proof. vm_compute. reflexivity. Qed.

Lemma extract_best_member_witness :
  In "John Smith" ["Alice Smith"; "John Smith"]
  /\ 75 <= token_set_ratio no_similarity "John Smith" "John Smith"
  /\ forall c', In c' ["Alice Smith"; "John Smith"] ->
                token_set_ratio no_similarity "John Smith" c'
                <= token_set_ratio no_similarity "John Smith" "John Smith".
Proof.
  apply (extract_best_member no_similarity "John Smith"
           ["Alice Smith"; "John Smith"] 75 "John Smith" extract_best_sample).
Defined.

Lemma get_best_score_john :
  get_best_score no_similarity "John" ["Mary"; "John"] = Ok 100.
Proof. vm_compute. reflexivity. Qed.

Lemma get_best_score_mary :
  get_best_score no_similarity "John" ["Mary"] = Ok 0.
Proof. vm_compute. reflexivity. Qed.

Lemma entry_points_agree_witness :
  extract_best no_similarity "John" ["Mary"] 75 = Ok None
  /\ exists c, extract_best no_similarity "John" ["Mary"; "John"] 75 = Ok (Some c)
               /\ token_set_ratio no_similarity "John" c = 100.
Proof.
  split.
  - destruct (entry_points_agree no_similarity "John" ["Mary"] 0 get_best_score_mary 75)
      as (H & _); [lia|]. apply H. lia.
  - destruct (entry_points_agree no_similarity "John" ["Mary"; "John"] 100
                get_best_score_john 75) as (_ & H & _); [lia|]. apply H. lia.
Defined.

Lemma get_best_score_fails_iff_witness :
  get_best_score no_similarity "John" [] = Raise TypeError <-> @nil string = [].
Proof.
  apply (get_best_score_fails_iff no_similarity "John" []).
  exact no_similarity_nonneg.
Defined.

Lemma get_best_score_same_candidates_witness :
  get_best_score no_similarity "John" ["Mary"; "John"]
  = get_best_score no_similarity "John" ["John"; "Mary"; "John"].
Proof.
  apply (get_best_score_same_candidates no_similarity "John" ["Mary"; "John"]
           ["John"; "Mary"; "John"]).
  intros c. simpl. tauto.
Defined.

Lemma get_best_score_more_candidates_witness :
  exists score', get_best_score no_similarity "John" ["Mary"; "John"] = Ok score'
                 /\ 0 <= score'.
Proof.
  apply (get_best_score_more_candidates no_similarity "John" ["Mary"] ["Mary"; "John"] 0).
  - intros c [<- | []]. left. reflexivity.
  - exact get_best_score_mary.
Defined.

Lemma extract_best_sample_100 :
  extract_best no_similarity "John Smith" ["Alice Smith"; "John Smith"] 100
  = Ok (Some "John Smith").
Proof. vm_compute. reflexivity. Qed.

Lemma lower_threshold_keeps_match_witness :
  extract_best no_similarity "John Smith" ["Alice Smith"; "John Smith"] 75
  = Ok (Some "John Smith").
Proof.
  apply (lower_threshold_keeps_match no_similarity "John Smith"
           ["Alice Smith"; "John Smith"] 100 75 "John Smith").
  - lia.
  - lia.
  - exact extract_best_sample_100.
Defined.

Lemma selected_name_has_two_tokens_witness :
  exists best_first best_last,
    nth_error (split " " "John Smxth") 0 = Some best_first
    /\ nth_error (split " " "Jon Smyth") 1 = Some best_last
    /\ split " " "John Smyth" = [best_first; best_last].
Proof.
  apply (selected_name_has_two_tokens
           (scored_row "John Smxth" "Jon Smyth" 100 86 40 80)
           "John Smxth" "Jon Smyth" 100 86 40 80 "John Smyth"
           (scored_row_names_scores _ _ _ _ _ _)).
  reflexivity.
Defined.

Lemma select_best_full_name_succeeds_witness :
  exists out,
    select_best_full_name (scored_row "John Smxth" "Jon Smyth" 100 86 40 80) = Ok out.
Proof.
  apply (select_best_full_name_succeeds
           (scored_row "John Smxth" "Jon Smyth" 100 86 40 80)
           "John Smxth" "Jon Smyth" 100 86 40 80
           (scored_row_names_scores _ _ _ _ _ _)); vm_compute; lia.
Defined.

Lemma main_needs_name_columns_witness :
  main no_similarity sample_transactions
       (mkFrame ["customer_id"; "email"] [[Int 7; Str "js@x.org"]]) sample_names
  = Raise KeyError.
Proof.
  apply (main_needs_name_columns no_similarity sample_transactions
           (mkFrame ["customer_id"; "email"] [[Int 7; Str "js@x.org"]]) sample_names).
  left. simpl. intros [H | [H | []]]; discriminate H.
Defined.

Lemma run_needs_reference_names_witness :
  exists female male lasts,
    names_of sample_names "first:female" = Ok female
    /\ names_of sample_names "first:male" = Ok male
    /\ names_of sample_names "last" = Ok lasts
    /\ female ++ male <> [] /\ lasts <> [].
Proof.
  apply (run_needs_reference_names no_similarity sample_transactions sample_customers
           sample_names sample_output main_sample).
  discriminate.
Defined.

Lemma twin_customers_named :
  Forall (fun r => exists c,
            cell_at (columns twin_customers) "customer_name" r = Ok (Str c))
         (data twin_customers).
Proof. repeat constructor; eexists; reflexivity. Qed.

Lemma sample_external_name :
  external_name_of no_similarity transaction_columns twin_customers
    [Int 1; Int 250; Str "2024-01-05"; Int 7; Str "js@x.org"; Str "John Smith"]
  = Ok (Str "John Smith").
Proof. vm_compute. reflexivity. Qed.

Lemma joined_customer_clears_threshold_witness :
  (exists c,
      Str "John Smith" = Str c
      /\ customer_rows twin_customers (Str "John Smith") <> []
      /\ (inject_Z 75 <= unrounded_ratio no_similarity "John Smith" c)%Q)
  \/ (Str "John Smith" = NaN
      /\ customer_rows twin_customers (Str "John Smith") = []).
Proof.
  destruct (joined_customer_clears_threshold no_similarity transaction_columns
              twin_customers
              [Int 1; Int 250; Str "2024-01-05"; Int 7; Str "js@x.org"; Str "John Smith"]
              "John Smith" (Str "John Smith")
              sample_external_name eq_refl twin_customers_named)
    as [(c & H1 & H2 & _ & H3 & _) | (H1 & H2 & _)].
  - left. exists c. auto.
  - right. auto.
Defined.

Lemma sample_customers_rows :
  Forall (fun r : row => List.length r = 3%nat) (data sample_customers).
Proof. repeat constructor. Qed.

Lemma run_needs_two_tokens_witness :
  exists s first second rest,
    Str "John Smith" = Str s /\ split " " s = first :: second :: rest.
Proof.
  apply (run_needs_two_tokens no_similarity sample_transactions sample_customers
           sample_names sample_output main_sample eq_refl eq_refl
           sample_customers_rows (Int 1) (Int 250) (Str "2024-01-05") (Int 7)
           (Str "js@x.org") (Str "John Smith")).
  left. reflexivity.
Defined.

Lemma main_nameless :
  main no_similarity sample_transactions
       (mkFrame ["customer_id"; "email"] [[Int 7; Str "js@x.org"]]) sample_names
  = Raise KeyError.
Proof. vm_compute. reflexivity. Qed.

Lemma tabular_failure_stops_run_witness :
  main_upload no_similarity sample_env sample_transactions
    (mkFrame ["customer_id"; "email"] [[Int 7; Str "js@x.org"]]) sample_names
    "customer_transactions" true []
  = ([], Raises (Tabular KeyError)).
Proof.
  apply (tabular_failure_stops_run no_similarity sample_env sample_transactions
           (mkFrame ["customer_id"; "email"] [[Int 7; Str "js@x.org"]]) sample_names
           "customer_transactions" true [] KeyError main_nameless).
Defined.

Lemma run_without_connection_witness :
  (exists r,
      snd (main_upload no_similarity refusing_env plain_transactions sample_customers
             sample_names "customer_transactions" true []) = Raises r)
  /\ In (WritePandas None plain_output (upper "customer_transactions"))
        (fst (main_upload no_similarity refusing_env plain_transactions sample_customers
                sample_names "customer_transactions" true [])).
Proof.
  destruct (run_without_connection no_similarity refusing_env plain_transactions
              sample_customers sample_names "customer_transactions" true []
              plain_output "250001: failed to connect" main_plain eq_refl)
    as (H1 & H2 & _).
  split; [exact H1 | exact H2].
Defined.

Lemma create_table_result_ignored_witness :
  exists evs,
    fst (main_upload no_similarity failing_env plain_transactions sample_customers
           sample_names "customer_transactions" false [])
    = [ Connect (credentials failing_env); OpenCursor 1%nat;
        Execute 2%nat (create_table_query "CUSTOMER_TRANSACTIONS"); ExitCursor 2%nat ]
      ++ WritePandas (Some 1%nat) plain_output (upper "customer_transactions") :: evs.
Proof.
  apply (create_table_result_ignored no_similarity failing_env plain_transactions
           sample_customers sample_names "customer_transactions" false []
           [Connect (credentials failing_env)]
           [ Connect (credentials failing_env); OpenCursor 1%nat;
             Execute 2%nat (create_table_query "CUSTOMER_TRANSACTIONS"); ExitCursor 2%nat ]
           plain_output (Some 1%nat) false main_plain eq_refl eq_refl).
Defined.

Lemma failed_upload_leaves_connection_open_witness :
  main_upload no_similarity broken_upload_env plain_transactions sample_customers
    sample_names "customer_transactions" false []
  = ([ Connect (credentials broken_upload_env); OpenCursor 1%nat;
       Execute 2%nat (create_table_query "CUSTOMER_TRANSACTIONS"); ExitCursor 2%nat ]
     ++ [WritePandas (Some 1%nat) plain_output (upper "customer_transactions")],
     Raises (OtherException "upload failed")).
Proof.
  apply (failed_upload_leaves_connection_open no_similarity broken_upload_env
           plain_transactions sample_customers sample_names "customer_transactions"
           false [] [Connect (credentials broken_upload_env)]
           [ Connect (credentials broken_upload_env); OpenCursor 1%nat;
             Execute 2%nat (create_table_query "CUSTOMER_TRANSACTIONS"); ExitCursor 2%nat ]
           plain_output (Some 1%nat) true (OtherException "upload failed")
           main_plain eq_refl eq_refl eq_refl).
Defined.

Lemma reported_failure_still_closes_witness :
  In (Close 1%nat)
     (fst (main_upload no_similarity failing_env plain_transactions sample_customers
             sample_names "customer_transactions" false []))
  /\ snd (main_upload no_similarity failing_env plain_transactions sample_customers
            sample_names "customer_transactions" false []) = Returns tt.
Proof.
  destruct (reported_failure_still_closes no_similarity failing_env plain_transactions
              sample_customers sample_names "customer_transactions" false []
              [Connect (credentials failing_env)]
              [ Connect (credentials failing_env); OpenCursor 1%nat;
                Execute 2%nat (create_table_query "CUSTOMER_TRANSACTIONS"); ExitCursor 2%nat ]
              plain_output 1%nat false 0 0 main_plain eq_refl eq_refl eq_refl)
    as [H1 H2].
  split; [exact H1 | apply H2; reflexivity].
Defined.

Lemma main_no_customers :
  main no_similarity stray_transactions (mkFrame customer_columns []) sample_names
  = Ok stray_output.
Proof. vm_compute. reflexivity. Qed.

Lemma empty_customers_one_row_each_witness :
  exists groups : list (list row),
    data stray_output = List.concat groups
    /\ Forall (fun g => List.length g = 1%nat) groups
    /\ List.length (data stray_output) = List.length (data stray_transactions).
Proof.
  destruct (empty_customers_one_row_each no_similarity stray_transactions
              (mkFrame customer_columns []) sample_names stray_output
              main_no_customers eq_refl) as (groups & _ & H1 & H2 & H3).
  exists groups. auto.
Defined.
